(** * Team / skill competency app (streamlit_app.py): model and properties

    The Streamlit script keeps one nested mapping in
    [st.session_state.teams]:

      teams : team name -> { "members" : member name -> (skill -> level),
                             "skills"  : category -> [skill names] }

    Python dictionaries iterate in insertion order and the export and the
    charts depend on that order, so a dictionary is modelled as an
    association list whose keys are pairwise distinct ([Dict.wf]); a store
    on an existing key keeps the key's position, a store on a new key appends.

    Widgets are inputs of the functions: the text of a text box, whether a
    button was pressed during this run, and the value a slider returns for
    its key.  Calls that only draw ([st.subheader], [st.write]) are left out;
    [st.success], [st.warning] and [st.error] are recorded as messages.

    Strings are [string]s whose characters stand for code points below 256.
    A Python float is a binary64 value of [SpecFloat.spec_float], and the
    division of two integers is the IEEE quotient rounded to nearest even. *)

From Stdlib Require Import List String Ascii Bool ZArith Lia.
From Stdlib Require Import DecimalString.
From Stdlib Require SpecFloat.
Import ListNotations.
Local Open Scope string_scope.
Local Open Scope Z_scope.

Set Implicit Arguments.

(** ** Python values *)

(** Truth value of a string and of a list: non-empty. *)
Definition truthy (s : string) : bool :=
match s with
| EmptyString => false
| String _ _ => true
end.

Definition nonempty {A : Type} (l : list A) : bool :=
match l with
| [] => false
| _ :: _ => true
end.

(** [str.isspace] on one character, for code points below 256:
    TAB..CR, FS..US, space, NEL (0x85) and NBSP (0xA0). *)
Definition is_space (c : ascii) : bool :=
let n := nat_of_ascii c in
((9 <=? n) && (n <=? 13))%nat || ((28 <=? n) && (n <=? 32))%nat
|| (n =? 133)%nat || (n =? 160)%nat.

Fixpoint lstrip (s : string) : string :=
match s with
| EmptyString => EmptyString
| String c r => if is_space c then lstrip r else s
end.

Fixpoint rstrip (s : string) : string :=
match s with
| EmptyString => EmptyString
| String c r =>
    match rstrip r with
    | EmptyString => if is_space c then EmptyString else String c EmptyString
    | r' => String c r'
    end
end.

(** [s.strip()] *)
Definition strip (s : string) : string := rstrip (lstrip s).

(** [s.replace(a, b)] for one-character [a] and [b]. *)
Fixpoint replace (a b : ascii) (s : string) : string :=
match s with
| EmptyString => EmptyString
| String c r => String (if Ascii.eqb c a then b else c) (replace a b r)
end.

(** [s.split(sep)] for a one-character separator: never the empty list. *)
Fixpoint split (sep : ascii) (s : string) : list string :=
match s with
| EmptyString => [EmptyString]
| String c r =>
    if Ascii.eqb c sep then EmptyString :: split sep r
    else match split sep r with
         | [] => [String c EmptyString]
         | h :: t => String c h :: t
         end
end.

(** [sep.join(l)] *)
Definition join (sep : string) (l : list string) : string := String.concat sep l.

(** [str(n)] for a length. *)
Definition str_of_nat (n : nat) : string := NilEmpty.string_of_uint (Nat.to_uint n).

(** [x in l] for a list of strings. *)
Definition str_in (x : string) (l : list string) : bool := existsb (String.eqb x) l.

(** ** Insertion-ordered dictionaries with string keys *)

Module Dict.

Definition t (V : Type) : Type := list (string * V).

Section Ops.
Variable V : Type.

(** [d.get(k)]: [None] when the key is absent ([d[k]] raises there). *)
Fixpoint get (k : string) (d : t V) : option V :=
match d with
| [] => None
| (k', v) :: r => if String.eqb k k' then Some v else get k r
end.

(** [k in d] *)
Definition mem (k : string) (d : t V) : bool :=
match get k d with
| Some _ => true
| None => false
end.

(** [d[k] = v]: in place on an existing key, appended otherwise. *)
Fixpoint set (k : string) (v : V) (d : t V) : t V :=
match d with
| [] => [(k, v)]
| (k', v') :: r =>
    if String.eqb k k' then (k, v) :: r else (k', v') :: set k v r
end.

(** [del d[k]] on a present key. *)
Fixpoint del (k : string) (d : t V) : t V :=
match d with
| [] => []
| (k', v') :: r => if String.eqb k k' then r else (k', v') :: del k r
end.

Definition keys (d : t V) : list string := map fst d.
Definition values (d : t V) : list V := map snd d.

(** The keys of a dictionary are pairwise distinct. *)
Definition wf (d : t V) : Prop := NoDup (keys d).

End Ops.

End Dict.

(** ** Session state *)

Record team : Type := mkTeam {
  members : Dict.t (Dict.t Z);
  skills : Dict.t (list string)
}.

Definition session : Type := Dict.t team.

(** What the user is told. *)
Inductive message : Type :=
| st_success (text : string)
| st_warning (text : string)
| st_error (text : string).

(** What [st.slider] raises: a widget whose key was already used in this
    run of the script, or a value outside [min_value .. max_value]. *)
Inductive st_exception : Type :=
| DuplicateWidgetID (key : string)
| StreamlitAPIException (key : string).

(** A subscript on a missing key raises [KeyError]; an exception of
    Streamlit stops the run and leaves the session state as the stores made
    before it left it, which is the state the constructor carries. *)
Inductive result (A : Type) : Type :=
| Ok (a : A)
| KeyError (key : string)
| Raised (e : st_exception) (teams : session).
Arguments KeyError {A} key.
Arguments Raised {A} e teams.

Definition bind {A B : Type} (r : result A) (f : A -> result B) : result B :=
match r with
| Ok a => f a
| KeyError k => KeyError k
| Raised e teams => Raised e teams
end.

Notation "x <- r ;; k" := (bind r (fun x => k))
  (at level 61, r at next level, right associativity).

Definition DEFAULT_SKILLS : Dict.t (list string) :=
[ ("Technical", ["Databricks"; "Python"; "NodeJS"; "SQL"; "Gitlab"]);
  ("Domain", ["LM"; "SM"; "in vitro"; "in vivo"; "target"]);
  ("Operational", ["SAFe"; "Collab"; "Comms"; "SNOW"; "Monitoring and Tracking"]) ].

(** ** add_team *)

Definition new_team : team := mkTeam [] DEFAULT_SKILLS.

Definition add_team (team_name : string) (clicked : bool) (teams : session)
  : session * list message :=
if clicked then
  if truthy team_name && negb (Dict.mem team_name teams) then
    (Dict.set team_name new_team teams,
     [st_success ("Team '" ++ team_name ++ "' added with default skills.")])
  else if Dict.mem team_name teams then
    (teams, [st_warning ("Team '" ++ team_name ++ "' already exists.")])
  else
    (teams, [st_error "Please enter a valid team name."])
else (teams, []).

(** ** add_members *)

(** [[m.strip() for m in text.replace("\n", ",").split(",") if m.strip()]] *)
Definition parse_names (text : string) : list string :=
map strip
  (filter (fun m => truthy (strip m))
     (split "," (replace "010" "," text))).

(** One turn of the loop over the parsed names, on the team's members. *)
Definition add_member (ms : Dict.t (Dict.t Z)) (member_name : string)
  : Dict.t (Dict.t Z) :=
if truthy member_name && negb (Dict.mem member_name ms)
then Dict.set member_name [] ms
else ms.

(** The team is looked up by the first turn of the loop, so an unknown team
    raises only when there is a name to add; every turn works on the same
    team object. *)
Definition add_members (team_name members_input : string) (clicked : bool)
  (teams : session) : result (session * list message) :=
if clicked then
  if truthy members_input then
    let names := parse_names members_input in
    let done :=
      [st_success ("Members added to team '" ++ team_name ++ "': "
                   ++ join ", " names)] in
    match names with
    | [] => Ok (teams, done)
    | _ :: _ =>
        match Dict.get team_name teams with
        | None => KeyError team_name
        | Some T =>
            Ok (Dict.set team_name
                  (mkTeam (fold_left add_member names (members T)) (skills T))
                  teams,
                done)
        end
    end
  else Ok (teams, [st_error "Please enter valid member names."])
else Ok (teams, []).

(** ** add_skills *)

Definition add_skill (l : list string) (skill_name : string) : list string :=
if truthy skill_name && negb (str_in skill_name l)
then (l ++ [skill_name])%list
else l.

(** The body of the loop over the categories, for one category. *)
Definition add_skills_category (team_name category skills_input : string)
  (clicked : bool) (teams : session) : result (session * list message) :=
if clicked then
  if truthy skills_input then
    let names := parse_names skills_input in
    let done :=
      [st_success (category ++ " Skills added to team '" ++ team_name ++ "': "
                   ++ join ", " names)] in
    match names with
    | [] => Ok (teams, done)
    | _ :: _ =>
        match Dict.get team_name teams with
        | None => KeyError team_name
        | Some T =>
            match Dict.get category (skills T) with
            | None => KeyError category
            | Some l =>
                Ok (Dict.set team_name
                      (mkTeam (members T)
                         (Dict.set category (fold_left add_skill names l)
                            (skills T)))
                      teams,
                    done)
            end
        end
    end
  else
    Ok (teams,
        [st_error ("Please enter valid " ++ category ++ " skill names.")])
else Ok (teams, []).

Definition CATEGORIES : list string := ["Technical"; "Domain"; "Operational"].

(** [widgets category] is the text of the category's text area and whether
    its button was pressed. *)
Definition add_skills (team_name : string) (widgets : string -> string * bool)
  (teams : session) : result (session * list message) :=
fold_left
  (fun acc category =>
     p <- acc ;;
     q <- add_skills_category team_name category
            (fst (widgets category)) (snd (widgets category)) (fst p) ;;
     Ok (fst q, (snd p ++ snd q)%list))
  CATEGORIES (Ok (teams, [])).

(** ** assign_competency *)

(** The key of the slider of a member and a skill. *)
Definition slider_key (team_name member_name skill : string) : string :=
team_name ++ "_" ++ member_name ++ "_" ++ skill.

(** [members[member_name][skill] = level]; [member_name] is a key of
    [members] whenever this runs. *)
Definition store_level (member_name skill : string) (level : Z)
  (ms : Dict.t (Dict.t Z)) : Dict.t (Dict.t Z) :=
match Dict.get member_name ms with
| Some d => Dict.set member_name (Dict.set skill level d) ms
| None => ms
end.

(** What the three loops store when no slider raises: the loop over the
    members for one skill, and the loops over the categories and their
    skills. *)
Definition store_skill (slider : string -> Z) (team_name skill : string)
  (ms : Dict.t (Dict.t Z)) : Dict.t (Dict.t Z) :=
fold_left
  (fun ms member_name =>
     store_level member_name skill
       (slider (slider_key team_name member_name skill)) ms)
  (Dict.keys ms) ms.

Definition store_all (slider : string -> Z) (team_name : string)
  (sk : Dict.t (list string)) (ms : Dict.t (Dict.t Z)) : Dict.t (Dict.t Z) :=
fold_left
  (fun ms cat =>
     fold_left (fun ms skill => store_skill slider team_name skill ms)
       (snd cat) ms)
  sk ms.

(** [st.slider(label, min_value=.., max_value=.., key=key)]: [slider key] is
    the value the slider of that key holds in this run (what the user set,
    [min_value] for a slider not moved yet) and [used] are the keys of the
    widgets made so far in the run.  A key made before is refused, and so is
    a value outside the bounds. *)
Definition st_slider (slider : string -> Z) (min_value max_value : Z)
  (key : string) (used : list string) : st_exception + Z :=
if str_in key used then inl (DuplicateWidgetID key)
else if (min_value <=? slider key) && (slider key <=? max_value)
     then inr (slider key)
     else inl (StreamlitAPIException key).

(** The loops of [assign_competency] under way: the members of the team,
    the widget keys of the run, and the exception that stopped the loops. *)
Record progress : Type := mkProgress {
  p_members : Dict.t (Dict.t Z);
  p_used : list string;
  p_raised : option st_exception
}.

(** One turn of the innermost loop: the slider, then the store.  Nothing
    runs once an exception was raised. *)
Definition assign_member (slider : string -> Z) (team_name skill : string)
  (p : progress) (member_name : string) : progress :=
match p_raised p with
| Some _ => p
| None =>
    let key := slider_key team_name member_name skill in
    match st_slider slider 0 10 key (p_used p) with
    | inl e => mkProgress (p_members p) (p_used p) (Some e)
    | inr level =>
        mkProgress (store_level member_name skill level (p_members p))
          (key :: p_used p) None
    end
end.

(** The loop over the members for one skill. *)
Definition assign_skill (slider : string -> Z) (team_name : string)
  (p : progress) (skill : string) : progress :=
fold_left (assign_member slider team_name skill) (Dict.keys (p_members p)) p.

(** The loops over the categories and their skills. *)
Definition assign_all (slider : string -> Z) (team_name : string)
  (sk : Dict.t (list string)) (p : progress) : progress :=
fold_left
  (fun p cat => fold_left (assign_skill slider team_name) (snd cat) p)
  sk p.

(** [used] are the keys of the widgets made in the run before the call.  The
    stores are made in place, so they stay when a slider raises. *)
Definition assign_competency (slider : string -> Z) (used : list string)
  (team_name : string) (teams : session) : result (session * list message) :=
match Dict.get team_name teams with
| None => KeyError team_name
| Some T =>
    if negb (existsb nonempty (Dict.values (skills T))) then
      Ok (teams,
          [st_warning ("No skills added to team '" ++ team_name
                       ++ "'. Please add skills first.")])
    else
      let p := assign_all slider team_name (skills T)
                 (mkProgress (members T) used None) in
      let teams' :=
        Dict.set team_name (mkTeam (p_members p) (skills T)) teams in
      match p_raised p with
      | None => Ok (teams', [])
      | Some e => Raised e teams'
      end
end.

(** ** display_category_radar_chart *)

(** The four columns of [skill_stats]. *)
Record stats : Type := mkStats {
  Skill : list string;
  Min : list Z;
  Max : list Z;
  Average : list SpecFloat.spec_float
}.

(** The levels of the members that have an entry for [skill]. *)
Definition competencies (skill : string) (ms : Dict.t (Dict.t Z)) : list Z :=
flat_map
  (fun e => match Dict.get skill (snd e) with
            | Some level => [level]
            | None => []
            end)
  ms.

(** [min], [max] of the non-empty list [x :: r], and [sum]. *)
Definition py_min (x : Z) (r : list Z) : Z := fold_left Z.min r x.
Definition py_max (x : Z) (r : list Z) : Z := fold_left Z.max r x.
Definition py_sum (l : list Z) : Z := fold_left Z.add l 0.

Definition py_len {A : Type} (l : list A) : Z := Z.of_nat (List.length l).

(** An integer as the operand of a float division: the exact value. *)
Definition float_of_int (z : Z) : SpecFloat.spec_float :=
match z with
| Z0 => SpecFloat.S754_zero false
| Zpos m => SpecFloat.S754_finite false m 0
| Zneg m => SpecFloat.S754_finite true m 0
end.

(** [a / b] on two integers: the binary64 float nearest to the quotient
    (ties to even).  Python raises [OverflowError] where the quotient is
    beyond the floats, which sums of levels do not reach; the division
    gives an infinity there. *)
Definition py_truediv (a b : Z) : SpecFloat.spec_float :=
SpecFloat.SFdiv 53 1024 (float_of_int a) (float_of_int b).

(** One turn of the loop over the skills. *)
Definition stats_step (ms : Dict.t (Dict.t Z)) (acc : stats) (skill : string)
  : stats :=
match competencies skill ms with
| [] => acc
| x :: r =>
    mkStats (Skill acc ++ [skill])%list
      (Min acc ++ [py_min x r])%list
      (Max acc ++ [py_max x r])%list
      (Average acc ++ [py_truediv (py_sum (x :: r)) (py_len (x :: r))])%list
end.

Definition skill_stats (sk : list string) (ms : Dict.t (Dict.t Z)) : stats :=
fold_left (stats_step ms) sk (mkStats [] [] [] []).

(** The figure: three traces over the same skills, and the title. *)
Record figure : Type := mkFigure {
  fig_min : list Z;
  fig_max : list Z;
  fig_average : list SpecFloat.spec_float;
  fig_theta : list string;
  fig_title : string
}.

Definition no_data_warning (team_name category : string) : message :=
st_warning ("Cannot create radar chart for category '" ++ category
            ++ "' in team '" ++ team_name ++ "'. Add skills and members first.").

Definition count_warning (category : string) (n : nat) : message :=
st_warning ("Radar chart for category '" ++ category
            ++ "' can only be displayed if there are between 5 and 8 skills. Current count: "
            ++ str_of_nat n ++ ".").

(** [team_data["skills"].get(category, [])] *)
Definition category_skills (category : string) (team_data : team) : list string :=
match Dict.get category (skills team_data) with
| Some l => l
| None => []
end.

(** Returns the figure, or [None] after a warning. *)
Definition display_category_radar_chart (team_name category : string)
  (teams : session) : result (option figure * list message) :=
match Dict.get team_name teams with
| None => KeyError team_name
| Some team_data =>
    let sk := category_skills category team_data in
    if negb (nonempty sk) || negb (nonempty (members team_data)) then
      Ok (None, [no_data_warning team_name category])
    else
      let s := skill_stats sk (members team_data) in
      if (List.length (Skill s) <? 5)%nat || (8 <? List.length (Skill s))%nat then
        Ok (None, [count_warning category (List.length (Skill s))])
      else
        Ok (Some (mkFigure (Min s) (Max s) (Average s) (Skill s)
                    (category ++ " Competency Radar Chart for Team: " ++ team_name)),
            [])
end.

(** ** Deleting a team and exporting *)

(** [del st.session_state.teams[team_name]] behind the team's delete button. *)
Definition delete_team (team_name : string) (teams : session) : session :=
Dict.del team_name teams.

Record row : Type := mkRow {
  Team : string;
  Member : string;
  RowSkill : string;
  Competency_Level : Z
}.

(** The innermost loop, over the recorded skills of one member. *)
Definition member_rows (team_name : string) (me : string * Dict.t Z) : list row :=
map (fun se => mkRow team_name (fst me) (fst se) (snd se)) (snd me).

(** The loop over the members of one team. *)
Definition team_rows (te : string * team) : list row :=
flat_map (member_rows (fst te)) (members (snd te)).

Definition export_data (teams : session) : list row :=
flat_map team_rows teams.

(** ** Views used by the statements *)

(** The level recorded for a member and a skill, if any. *)
Definition level_of (ms : Dict.t (Dict.t Z)) (m s : string) : option Z :=
match Dict.get m ms with
| Some d => Dict.get s d
| None => None
end.

(** The sparse score mapping of the whole state. *)
Definition score (teams : session) (t m s : string) : option Z :=
match Dict.get t teams with
| Some T => level_of (members T) m s
| None => None
end.

(** Row [i] of the data frame built from the four columns. *)
Record skill_record : Type := mkRecord {
  skill_name : string;
  rec_min : Z;
  rec_max : Z;
  rec_average : SpecFloat.spec_float
}.

Fixpoint records_of (ss : list string) (mins maxs : list Z)
  (avgs : list SpecFloat.spec_float)
  : list skill_record :=
match ss, mins, maxs, avgs with
| s :: ss', a :: mins', b :: maxs', c :: avgs' =>
    mkRecord s a b c :: records_of ss' mins' maxs' avgs'
| _, _, _, _ => []
end.

Definition records (s : stats) : list skill_record :=
records_of (Skill s) (Min s) (Max s) (Average s).

(** Some member has an entry for the skill. *)
Definition has_contributor (ms : Dict.t (Dict.t Z)) (skill : string) : bool :=
existsb (fun e => Dict.mem skill (snd e)) ms.

(** Every dictionary of members and of levels has distinct keys. *)
Definition members_wf (ms : Dict.t (Dict.t Z)) : Prop :=
Dict.wf ms /\ Forall (fun e => Dict.wf (snd e)) ms.

Definition session_wf (teams : session) : Prop :=
Dict.wf teams /\ Forall (fun e => members_wf (members (snd e))) teams.

(** Every recorded level is between 0 and 10. *)
Definition levels_bounded (teams : session) : Prop :=
Forall
  (fun te =>
     Forall (fun me => Forall (fun se => 0 <= snd se <= 10) (snd me))
       (members (snd te)))
  teams.

(** The states the script can hold: it starts from no team, and every run
    applies some of the operations with whatever the widgets hold; the state
    a slider's exception leaves behind is one of them. *)
Inductive reachable : session -> Prop :=
| reach_init : reachable []
| reach_add_team : forall name clicked teams,
    reachable teams -> reachable (fst (add_team name clicked teams))
| reach_add_members : forall name text clicked teams teams' msgs,
    reachable teams ->
    add_members name text clicked teams = Ok (teams', msgs) ->
    reachable teams'
| reach_add_skills : forall name widgets teams teams' msgs,
    reachable teams ->
    add_skills name widgets teams = Ok (teams', msgs) ->
    reachable teams'
| reach_assign : forall slider used name teams teams' msgs,
    reachable teams ->
    assign_competency slider used name teams = Ok (teams', msgs) ->
    reachable teams'
| reach_assign_raised : forall slider used name teams e teams',
    reachable teams ->
    assign_competency slider used name teams = Raised e teams' ->
    reachable teams'
| reach_delete : forall name teams,
    reachable teams -> reachable (delete_team name teams).

(** Grouping exported rows again by team, member and skill, as the export
    round trip of the specification words it: a later row for the same
    triple replaces the earlier one. *)
Definition regroup_row (acc : Dict.t (Dict.t (Dict.t Z))) (r : row)
  : Dict.t (Dict.t (Dict.t Z)) :=
let tm := match Dict.get (Team r) acc with Some x => x | None => [] end in
let sk := match Dict.get (Member r) tm with Some x => x | None => [] end in
Dict.set (Team r)
  (Dict.set (Member r) (Dict.set (RowSkill r) (Competency_Level r) sk) tm) acc.

Definition regroup (rows : list row) : Dict.t (Dict.t (Dict.t Z)) :=
fold_left regroup_row rows [].

Definition regrouped (g : Dict.t (Dict.t (Dict.t Z))) (t m s : string)
  : option Z :=
match Dict.get t g with
| Some ms => level_of ms m s
| None => None
end.

Definition row_key (r : row) : string * string * string :=
(Team r, Member r, RowSkill r).

(** A text made of white space only (the empty text included). *)
Fixpoint all_chars (p : ascii -> bool) (s : string) : bool :=
match s with
| EmptyString => true
| String c r => p c && all_chars p r
end.

Definition blank (s : string) : bool := all_chars is_space s.

Definition is_error (m : message) : bool :=
match m with
| st_error _ => true
| _ => false
end.

(** A member as [add_members] creates it: no level recorded. *)
Definition fresh_member (n : string) : string * Dict.t Z := (n, []).

(** The sum of a list of levels. *)
Definition total (l : list Z) : Z := fold_right Z.add 0 l.

(** What a record says about its skill: the skill has a contributor, and
    the record holds the least and the greatest recorded level and the
    float quotient of their sum by their number. *)
Definition record_ok (ms : Dict.t (Dict.t Z)) (r : skill_record) : Prop :=
let levels := competencies (skill_name r) ms in
levels <> []
/\ In (rec_min r) levels /\ (forall x, In x levels -> rec_min r <= x)
/\ In (rec_max r) levels /\ (forall x, In x levels -> x <= rec_max r)
/\ rec_average r = py_truediv (total levels) (Z.of_nat (List.length levels)).

(** The state of the four columns after the loop has gone through [seen]. *)
Definition stats_inv (ms : Dict.t (Dict.t Z)) (seen : list string) (acc : stats)
  : Prop :=
List.length (Min acc) = List.length (Skill acc)
/\ List.length (Max acc) = List.length (Skill acc)
/\ List.length (Average acc) = List.length (Skill acc)
/\ Skill acc = filter (has_contributor ms) seen
/\ Forall (record_ok ms) (records acc).

(** What holds of every state the script reaches: keys are distinct at
    every level, every level is between 0 and 10, and no team is named by
    the empty string. *)
Definition member_ok (d : Dict.t Z) : Prop :=
Dict.wf d /\ Forall (fun se => 0 <= snd se <= 10) d.

Definition members_ok (ms : Dict.t (Dict.t Z)) : Prop :=
Dict.wf ms /\ Forall (fun me => member_ok (snd me)) ms.

Definition session_ok (teams : session) : Prop :=
Dict.wf teams
/\ Forall (fun te => members_ok (members (snd te))) teams
/\ Dict.mem EmptyString teams = false.

(** A small session: team Alpha, members Ana and Ben, every slider at 3
    but Ana's for Python, at 7. *)
Definition demo_slider (key : string) : Z :=
if String.eqb key "Alpha_Ana_Python" then 7 else 3.

Definition demo_teams : session :=
Eval vm_compute in
  match add_members "Alpha" "Ana, Ben" true (fst (add_team "Alpha" true [])) with
  | Ok p =>
      match assign_competency demo_slider [] "Alpha" (fst p) with
      | Ok q => fst q
      | _ => []
      end
  | _ => []
  end.

(** ** Further views: names, team shape, the manage block, the export button *)

(** The character does not occur in the string. *)
Definition no_char (c : ascii) (s : string) : bool :=
all_chars (fun x => negb (Ascii.eqb x c)) s.

(** A name as a text box yields it: not empty, no white space around it,
    no separator inside. *)
Definition clean_name (n : string) : Prop :=
truthy n = true /\ strip n = n
/\ no_char "," n = true /\ no_char "010" n = true.

(** The pieces of a text after splitting, as the comprehension filters and
    strips them. *)
Definition keep_names (pieces : list string) : list string :=
map strip (filter (fun m => truthy (strip m)) pieces).

(** The skills a new team has in a category. *)
Definition default_skills (category : string) : list string :=
category_skills category new_team.

(** A category of a team: its skills are distinct and clean, and start with
    the default skills of the category. *)
Definition category_ok (cl : string * list string) : Prop :=
NoDup (snd cl)
/\ Forall clean_name (snd cl)
/\ exists extra, snd cl = (default_skills (fst cl) ++ extra)%list.

(** A team: its member names are clean, and it has the three categories. *)
Definition team_shape (T : team) : Prop :=
Forall clean_name (Dict.keys (members T))
/\ Dict.keys (skills T) = CATEGORIES
/\ Forall category_ok (skills T).

Definition session_shape (teams : session) : Prop :=
Forall (fun te => team_shape (snd te)) teams.

(** The names a text box and its button submit in a run: none unless the
    button was pressed on a text that is not empty. *)
Definition submitted (clicked : bool) (text : string) : list string :=
if clicked && truthy text then parse_names text else [].

(** The widgets of one run of the script: the text boxes by key, the
    buttons by label, the sliders by key. *)
Record ui : Type := mkUi {
  text_input : string -> string;
  text_area : string -> string;
  button : string -> bool;
  slider_value : string -> Z
}.

(** [add_team()], [add_members(team_name)] and [add_skills(team_name)] with
    the widgets they read. *)
Definition add_team_ui (w : ui) (teams : session) : session * list message :=
add_team (text_input w "add_team") (button w "Add Team") teams.

Definition add_members_ui (w : ui) (team_name : string) (teams : session)
  : result (session * list message) :=
add_members team_name
  (text_area w ("add_members_" ++ team_name))
  (button w ("Add Members to " ++ team_name))
  teams.

Definition add_skills_ui (w : ui) (team_name : string) (teams : session)
  : result (session * list message) :=
add_skills team_name
  (fun category =>
     (text_area w ("add_skills_" ++ team_name ++ "_" ++ category),
      button w ("Add " ++ category ++ " Skills to " ++ team_name)))
  teams.

(** [st.text_area(label, key=key)] as far as its key goes: a key made
    before in the run is refused.  (The buttons are made without a key.) *)
Definition st_text_area (key : string) (used : list string)
  : option st_exception :=
if str_in key used then Some (DuplicateWidgetID key) else None.

(** One turn of the loop of [add_skills] in a run: the text area with its
    key, then the button and what it does.  The turn carries the state, the
    messages and the keys of the widgets made so far. *)
Definition manage_skills (w : ui) (team_name : string)
  (acc : result (session * list message * list string)) (category : string)
  : result (session * list message * list string) :=
a <- acc ;;
let key := "add_skills_" ++ team_name ++ "_" ++ category in
match st_text_area key (snd a) with
| Some e => Raised e (fst (fst a))
| None =>
    q <- add_skills_category team_name category
           (text_area w key)
           (button w ("Add " ++ category ++ " Skills to " ++ team_name))
           (fst (fst a)) ;;
    Ok (fst q, (snd (fst a) ++ snd q)%list, key :: snd a)
end.

(** The block under [st.expander(f"Manage {team_name}")] in [manage_teams]:
    the three calls in a row; [used] are the keys of the widgets made in the
    run before the block, to which the text areas of the block add theirs
    before the sliders are made. *)
Definition manage_expander (w : ui) (used : list string) (team_name : string)
  (teams : session) : result (session * list message) :=
let key := "add_members_" ++ team_name in
match st_text_area key used with
| Some e => Raised e teams
| None =>
    p1 <- add_members_ui w team_name teams ;;
    p2 <- fold_left (manage_skills w team_name) CATEGORIES
            (Ok (fst p1, snd p1, key :: used)) ;;
    p3 <- assign_competency (slider_value w) (snd p2) team_name
            (fst (fst p2)) ;;
    Ok (fst p3, (snd (fst p2) ++ snd p3)%list)
end.

(** The export button: the rows offered for download, or the warning when
    the data frame is empty. *)
Definition export_button (clicked : bool) (teams : session)
  : option (list row) * list message :=
if clicked then
  let data := export_data teams in
  if nonempty data then (Some data, [])
  else (None, [st_warning "No data to export."])
else (None, []).



(** The float is exactly the quotient [a / b] of the integers. *)
Definition float_is_quotient (f : SpecFloat.spec_float) (a b : Z) : Prop :=
match f with
| SpecFloat.S754_zero _ => a = 0
| SpecFloat.S754_finite sign m e =>
    let n := if sign then Zneg m else Zpos m in
    if 0 <=? e then n * 2 ^ e * b = a else n * b = a * 2 ^ (- e)
| _ => False
end.

(** Whether a slider raises depends on the member names, the keys in use
    and the sliders, not on the levels recorded. *)
Definition same_run (p q : progress) : Prop :=
Dict.keys (p_members p) = Dict.keys (p_members q)
/\ p_used p = p_used q /\ p_raised p = p_raised q.

(** Team Alpha with Python added to its Domain category, and the member
    Ana: Python is a skill of two categories. *)
Definition python_twice : session :=
Eval vm_compute in
  match add_skills "Alpha"
          (fun c => if String.eqb c "Domain" then ("Python", true)
                    else (EmptyString, false))
          (fst (add_team "Alpha" true [])) with
  | Ok p =>
      match add_members "Alpha" "Ana" true (fst p) with
      | Ok q => fst q
      | _ => []
      end
  | _ => []
  end.

(** The state in which the sliders leave it, all at 0. *)
Definition python_stopped : session :=
Eval vm_compute in
  match assign_competency (fun _ => 0) [] "Alpha" python_twice with
  | Ok p => fst p
  | KeyError _ => []
  | Raised _ teams => teams
  end.

(** The keys of the sliders of a call of [assign_competency], in the order
    of its loops: categories, their skills, the members. *)
Definition slider_keys (team_name : string) (sk : Dict.t (list string))
  (names : list string) : list string :=
flat_map
  (fun cat =>
     flat_map
       (fun skill =>
          map (fun member_name => slider_key team_name member_name skill)
            names)
       (snd cat))
  sk.

(** Whether the sliders of the keys [ks], made in this order after the
    widgets of the keys [used], are all accepted. *)
Fixpoint sliders_accepted (slider : string -> Z) (ks used : list string)
  : bool :=
match ks with
| [] => true
| key :: ks =>
    match st_slider slider 0 10 key used with
    | inl _ => false
    | inr _ => sliders_accepted slider ks (key :: used)
    end
end.

(** What a loop over the sliders of the keys [ks] makes of [p]. *)
Definition loop_outcome (slider : string -> Z) (ks : list string)
  (p p' : progress) : Prop :=
if sliders_accepted slider ks (p_used p)
then p_raised p' = None /\ p_used p' = (rev ks ++ p_used p)%list
else p_raised p' <> None.

(** A run in which Cy is submitted as a member of team Alpha and omics as
    a skill of its Domain category, every slider at 5. *)
Definition demo_ui : ui :=
mkUi (fun _ => EmptyString)
  (fun key => if String.eqb key "add_members_Alpha" then "Cy"
              else if String.eqb key "add_skills_Alpha_Domain" then "omics"
              else EmptyString)
  (fun _ => true) (fun _ => 5).

(** * Facts about dictionaries *)

Section DictFacts.
Variable V : Type.
Implicit Types (d : Dict.t V) (k : string) (v : V).

Lemma get_set : forall d k k' v,
  Dict.get k' (Dict.set k v d)
  = if String.eqb k' k then Some v else Dict.get k' d.
Proof.
induction d as [|[k0 v0] r IH]; intros k k' v; simpl.
- reflexivity.
- destruct (String.eqb_spec k k0) as [->|Hk]; simpl.
  + destruct (String.eqb k' k0); reflexivity.
  + rewrite IH. destruct (String.eqb_spec k' k0) as [->|Hk'].
    * destruct (String.eqb_spec k0 k); [congruence | reflexivity].
    * reflexivity.
Qed.

Lemma get_set_same : forall d k v, Dict.get k (Dict.set k v d) = Some v.
Proof. intros. rewrite get_set, String.eqb_refl. reflexivity. Qed.

Lemma get_set_other : forall d k k' v,
  k' <> k -> Dict.get k' (Dict.set k v d) = Dict.get k' d.
Proof.
intros d k k' v H. rewrite get_set.
destruct (String.eqb_spec k' k); [contradiction | reflexivity].
Qed.

Lemma mem_set : forall d k k' v,
  Dict.mem k' (Dict.set k v d) = String.eqb k' k || Dict.mem k' d.
Proof.
intros. unfold Dict.mem. rewrite get_set.
destruct (String.eqb k' k); reflexivity.
Qed.

Lemma mem_keys : forall d k, Dict.mem k d = true <-> In k (Dict.keys d).
Proof.
induction d as [|[k0 v0] r IH]; intros k; unfold Dict.mem in *; simpl.
- split; [discriminate | tauto].
- destruct (String.eqb_spec k k0) as [->|Hk].
  + split; auto.
  + rewrite IH. split; [auto | intros [E|E]; congruence].
Qed.

Lemma not_mem_keys : forall d k, Dict.mem k d = false <-> ~ In k (Dict.keys d).
Proof.
intros d k. rewrite <- mem_keys. destruct (Dict.mem k d); split; congruence.
Qed.

Lemma get_In : forall d k v, Dict.get k d = Some v -> In (k, v) d.
Proof.
induction d as [|[k0 v0] r IH]; intros k v; simpl.
- discriminate.
- destruct (String.eqb_spec k k0) as [->|Hk].
  + intros [= ->]. now left.
  + intros H. right. now apply IH.
Qed.

Lemma In_get : forall d k v, Dict.wf d -> In (k, v) d -> Dict.get k d = Some v.
Proof.
induction d as [|[k0 v0] r IH]; intros k v Hwf Hin; simpl in *.
- contradiction.
- inversion Hwf as [|? ? Hnot Hr]; subst.
  destruct Hin as [[= -> ->]|Hin].
  + now rewrite String.eqb_refl.
  + destruct (String.eqb_spec k k0) as [->|Hk].
    * exfalso. apply Hnot. change (In (fst (k0, v)) (map fst r)).
      now apply in_map.
    * now apply IH.
Qed.

Lemma set_get_id : forall d k v, Dict.get k d = Some v -> Dict.set k v d = d.
Proof.
induction d as [|[k0 v0] r IH]; intros k v; simpl.
- discriminate.
- destruct (String.eqb_spec k k0) as [->|Hk].
  + now intros [= ->].
  + intros H. now rewrite IH.
Qed.

Lemma keys_set_present : forall d k v,
  Dict.mem k d = true -> Dict.keys (Dict.set k v d) = Dict.keys d.
Proof.
induction d as [|[k0 v0] r IH]; intros k v; unfold Dict.mem in *; simpl.
- discriminate.
- destruct (String.eqb_spec k k0) as [->|Hk]; simpl.
  + reflexivity.
  + intros H. now rewrite IH.
Qed.

Lemma set_absent : forall d k v,
  Dict.mem k d = false -> Dict.set k v d = (d ++ [(k, v)])%list.
Proof.
induction d as [|[k0 v0] r IH]; intros k v; unfold Dict.mem in *; simpl.
- reflexivity.
- destruct (String.eqb_spec k k0) as [->|Hk].
  + discriminate.
  + intros H. now rewrite IH.
Qed.

Lemma In_set : forall d k v e, In e (Dict.set k v d) -> e = (k, v) \/ In e d.
Proof.
induction d as [|[k0 v0] r IH]; intros k v e; simpl.
- intros [<-|[]]. now left.
- destruct (String.eqb k k0); simpl.
  + intros [<-|H]; auto.
  + intros [<-|H]; auto. destruct (IH _ _ _ H); auto.
Qed.

Lemma Forall_set : forall (P : string * V -> Prop) d k v,
  Forall P d -> P (k, v) -> Forall P (Dict.set k v d).
Proof.
intros P d k v Hd Hk. apply Forall_forall. intros e He.
destruct (In_set _ _ _ _ He) as [->|Hin]; [assumption|].
rewrite Forall_forall in Hd. now apply Hd.
Qed.

Lemma wf_set : forall d k v, Dict.wf d -> Dict.wf (Dict.set k v d).
Proof.
intros d k v Hwf. unfold Dict.wf in *.
destruct (Dict.mem k d) eqn:E.
- now rewrite keys_set_present.
- rewrite set_absent by assumption. unfold Dict.keys. rewrite map_app. simpl.
  apply NoDup_app. repeat split.
  + assumption.
  + constructor; [simpl; tauto | constructor].
  + intros x Hx [<-|[]]. apply not_mem_keys in E. now apply E.
Qed.

Lemma In_del : forall d k e, In e (Dict.del k d) -> In e d.
Proof.
induction d as [|[k0 v0] r IH]; intros k e; simpl.
- tauto.
- destruct (String.eqb k k0); simpl; [tauto|].
  intros [<-|H]; [now left | right; eauto].
Qed.

Lemma Forall_del : forall (P : string * V -> Prop) d k,
  Forall P d -> Forall P (Dict.del k d).
Proof.
intros P d k H. rewrite Forall_forall in *. intros e He.
apply H. eapply In_del; eassumption.
Qed.

Lemma wf_del : forall d k, Dict.wf d -> Dict.wf (Dict.del k d).
Proof.
unfold Dict.wf.
induction d as [|[k0 v0] r IH]; intros k Hwf; simpl in *.
- constructor.
- inversion Hwf as [|? ? Hnot Hr]; subst.
  destruct (String.eqb k k0); simpl; [assumption|].
  constructor; [|now apply IH].
  intros Hin. apply Hnot. apply in_map_iff in Hin.
  destruct Hin as [e [<- He]]. apply in_map. eapply In_del; eassumption.
Qed.

End DictFacts.

(** * Parsing a text box of names *)

Lemma lstrip_blank : forall s, blank s = true -> lstrip s = EmptyString.
Proof.
induction s as [|c r IH]; simpl; intros H.
- reflexivity.
- apply andb_true_iff in H. destruct H as [Hc Hr].
  rewrite Hc. now apply IH.
Qed.

Lemma strip_blank : forall s, blank s = true -> strip s = EmptyString.
Proof. intros s H. unfold strip. now rewrite lstrip_blank. Qed.

Lemma replace_blank : forall s,
  blank s = true ->
  all_chars (fun c => is_space c || Ascii.eqb c ",") (replace "010" "," s) = true.
Proof.
induction s as [|c r IH]; intros H.
- reflexivity.
- apply andb_true_iff in H. destruct H as [Hc Hr].
  cbn [replace all_chars]. rewrite (IH Hr), andb_true_r.
  destruct (Ascii.eqb c "010"); [reflexivity | now rewrite Hc].
Qed.

Lemma split_blank : forall s,
  all_chars (fun c => is_space c || Ascii.eqb c ",") s = true ->
  Forall (fun piece => blank piece = true) (split "," s).
Proof.
induction s as [|c r IH]; intros H.
- constructor; [reflexivity | constructor].
- cbn [all_chars] in H. apply andb_true_iff in H. destruct H as [Hc Hr].
  specialize (IH Hr). cbn [split].
  destruct (Ascii.eqb c ",") eqn:E.
  + constructor; [reflexivity | assumption].
  + rewrite orb_false_r in Hc.
    destruct (split "," r) as [|h t].
    * constructor; [|constructor].
      unfold blank. cbn [all_chars]. now rewrite Hc.
    * inversion IH as [|? ? Hh Ht]; subst. constructor; [|assumption].
      unfold blank in *. cbn [all_chars]. now rewrite Hc, Hh.
Qed.

Lemma parse_names_blank : forall text, blank text = true -> parse_names text = [].
Proof.
intros text H. unfold parse_names.
assert (F : Forall (fun piece => blank piece = true)
              (split "," (replace "010" "," text)))
  by (apply split_blank, replace_blank, H).
induction F as [|piece l Hp _ IH]; simpl.
- reflexivity.
- rewrite (strip_blank _ Hp). simpl. exact IH.
Qed.

(** * add_team *)

(** C6: adding a team under a non-empty name that no team has yet gives
    exactly one team of that name, placed after the existing ones, with no
    member and the three default categories with their default skills; the
    other teams are as before. *)
Theorem add_team_fresh : forall team_name teams,
  truthy team_name = true ->
  Dict.mem team_name teams = false ->
  add_team team_name true teams
  = ((teams ++ [(team_name, mkTeam [] DEFAULT_SKILLS)])%list,
     [st_success ("Team '" ++ team_name ++ "' added with default skills.")])
  /\ Dict.get team_name (fst (add_team team_name true teams))
     = Some (mkTeam [] DEFAULT_SKILLS)
  /\ count_occ string_dec (Dict.keys (fst (add_team team_name true teams)))
       team_name = 1%nat
  /\ Dict.keys DEFAULT_SKILLS = ["Technical"; "Domain"; "Operational"]
  /\ (forall other, other <> team_name ->
        Dict.get other (fst (add_team team_name true teams))
        = Dict.get other teams).
Proof.
intros team_name teams Hn Hm.
assert (E : add_team team_name true teams
            = ((teams ++ [(team_name, mkTeam [] DEFAULT_SKILLS)])%list,
               [st_success ("Team '" ++ team_name
                            ++ "' added with default skills.")])).
{ unfold add_team. rewrite Hn, Hm. simpl.
  now rewrite set_absent by assumption. }
rewrite E. simpl. repeat split.
- rewrite <- (set_absent _ _ _ Hm). apply get_set_same.
- unfold Dict.keys. rewrite map_app, count_occ_app. simpl.
  destruct (string_dec team_name team_name) as [_|N]; [|congruence].
  rewrite (proj1 (count_occ_not_In string_dec _ _)).
  + reflexivity.
  + now apply not_mem_keys.
- intros other Ho. rewrite <- (set_absent _ _ _ Hm).
  now apply get_set_other.
Qed.

Lemma add_team_fresh_witness :
  Dict.get "Alpha" (fst (add_team "Alpha" true []))
  = Some (mkTeam [] DEFAULT_SKILLS).
Proof.
exact (proj1 (proj2 (add_team_fresh "Alpha" [] eq_refl eq_refl))).
Defined.

(** C7: creating a team under a name some team already has gives a warning
    and the same state: every team, with its members, skills and levels, is
    as before. *)
Theorem add_team_duplicate : forall team_name teams,
  Dict.mem team_name teams = true ->
  add_team team_name true teams
  = (teams, [st_warning ("Team '" ++ team_name ++ "' already exists.")]).
Proof.
intros team_name teams H. unfold add_team.
rewrite H, andb_false_r. reflexivity.
Qed.

Lemma add_team_duplicate_witness :
  add_team "Alpha" true [("Alpha", mkTeam [("Ana", [("Python", 7)])] DEFAULT_SKILLS)]
  = ([("Alpha", mkTeam [("Ana", [("Python", 7)])] DEFAULT_SKILLS)],
     [st_warning "Team 'Alpha' already exists."]).
Proof.
exact (add_team_duplicate "Alpha"
         [("Alpha", mkTeam [("Ana", [("Python", 7)])] DEFAULT_SKILLS)] eq_refl).
Defined.

(** * Empty and blank names *)

(** C4, as the code has it: an empty team name, members text or skills text
    gives an error and the same state (for a team, the error is what is
    reported when no team is named by the empty string, which holds in every
    reachable state); a members or skills text of white space only also
    leaves the state as it is, and is reported as a success with no name. *)
Theorem empty_name_rejected :
  forall team_name category text widgets teams,
  Dict.mem EmptyString teams = false ->
  (forall c, fst (widgets c) = EmptyString) ->
  blank text = true ->
  truthy text = true ->
  add_team EmptyString true teams
  = (teams, [st_error "Please enter a valid team name."])
  /\ add_members team_name EmptyString true teams
     = Ok (teams, [st_error "Please enter valid member names."])
  /\ add_skills_category team_name category EmptyString true teams
     = Ok (teams,
           [st_error ("Please enter valid " ++ category ++ " skill names.")])
  /\ add_skills team_name widgets teams
     = Ok (teams,
           map (fun c => st_error ("Please enter valid " ++ c ++ " skill names."))
             (filter (fun c => snd (widgets c)) CATEGORIES))
  /\ add_members team_name text true teams
     = Ok (teams, [st_success ("Members added to team '" ++ team_name ++ "': ")])
  /\ add_skills_category team_name category text true teams
     = Ok (teams,
           [st_success (category ++ " Skills added to team '" ++ team_name
                        ++ "': ")]).
Proof.
intros team_name category text widgets teams Hno Hw Hb Ht.
repeat split.
- unfold add_team. simpl. now rewrite Hno.
- unfold add_skills, CATEGORIES. simpl. rewrite !Hw.
  unfold add_skills_category. simpl.
  destruct (snd (widgets "Technical")), (snd (widgets "Domain")),
    (snd (widgets "Operational")); reflexivity.
- unfold add_members. rewrite Ht, (parse_names_blank _ Hb). reflexivity.
- unfold add_skills_category. rewrite Ht, (parse_names_blank _ Hb). reflexivity.
Qed.

Lemma empty_name_rejected_witness :
  add_team EmptyString true [("Alpha", new_team)]
  = ([("Alpha", new_team)], [st_error "Please enter a valid team name."])
  /\ add_members "Alpha" " " true [("Alpha", new_team)]
     = Ok ([("Alpha", new_team)], [st_success "Members added to team 'Alpha': "]).
Proof.
pose proof (empty_name_rejected "Alpha" "Domain" " "
              (fun _ => (EmptyString, true)) [("Alpha", new_team)]
              eq_refl (fun _ => eq_refl) eq_refl eq_refl) as H.
split; [exact (proj1 H) | exact (proj1 (proj2 (proj2 (proj2 (proj2 H)))))].
Defined.

(** C4 as stated fails: a members text of one space is blank, and the
    operation reports a success, not an error. *)
Lemma blank_members_text_reports_success :
  blank " " = true
  /\ add_members "Alpha" " " true [("Alpha", new_team)]
     = Ok ([("Alpha", new_team)], [st_success "Members added to team 'Alpha': "])
  /\ existsb is_error [st_success "Members added to team 'Alpha': "] = false.
Proof. repeat split. Qed.

(** A team name is not stripped: a name of white space only names a team. *)
Example add_team_blank_name :
  blank "  " = true
  /\ add_team "  " true []
     = ([("  ", new_team)], [st_success "Team '  ' added with default skills."]).
Proof. split; reflexivity. Qed.

(** * add_members *)

Lemma add_member_get : forall ms name m d,
  Dict.get m ms = Some d -> Dict.get m (add_member ms name) = Some d.
Proof.
intros ms name m d H. unfold add_member.
destruct (truthy name); simpl; [|assumption].
destruct (Dict.mem name ms) eqn:E; simpl; [assumption|].
rewrite get_set_other; [assumption|].
intros ->. unfold Dict.mem in E. now rewrite H in E.
Qed.

Lemma fold_add_member_get : forall names ms m d,
  Dict.get m ms = Some d ->
  Dict.get m (fold_left add_member names ms) = Some d.
Proof.
induction names as [|n names IH]; intros ms m d H; simpl.
- assumption.
- apply IH. now apply add_member_get.
Qed.

Lemma fold_add_member_app : forall names ms,
  exists added,
    fold_left add_member names ms
    = (ms ++ map fresh_member added)%list
    /\ incl added names.
Proof.
induction names as [|n names IH]; intros ms; simpl.
- exists []. split; [now rewrite app_nil_r | apply incl_refl].
- destruct (IH (add_member ms n)) as [added [E I]]. rewrite E.
  unfold add_member.
  destruct (truthy n && negb (Dict.mem n ms)) eqn:C.
  + apply andb_true_iff in C. destruct C as [_ C].
    apply negb_true_iff in C. rewrite (set_absent _ _ _ C).
    exists (n :: added). split.
    * now rewrite <- app_assoc.
    * intros x [<-|Hx]; [now left | right; now apply I].
  + exists added. split; [reflexivity | now apply incl_tl].
Qed.

Lemma fold_add_member_id : forall names ms,
  (forall n, In n names -> Dict.mem n ms = true) ->
  fold_left add_member names ms = ms.
Proof.
induction names as [|n names IH]; intros ms H; simpl.
- reflexivity.
- assert (E : add_member ms n = ms).
  { unfold add_member. rewrite (H n (or_introl eq_refl)).
    now rewrite andb_false_r. }
  rewrite E. apply IH. intros x Hx. apply H. now right.
Qed.

(** C10: in a team that exists, [add_members] returns, and whatever the text
    holds, every member the team already had keeps its skill -> level mapping
    and its place; new members come after them with an empty mapping; the
    team's skills and all other teams are as before; and when every
    submitted name is already a member, the state is the same. *)
Theorem add_members_keeps_existing :
  forall team_name text clicked teams T,
  Dict.get team_name teams = Some T ->
  exists teams' msgs T' added,
    add_members team_name text clicked teams = Ok (teams', msgs)
    /\ Dict.get team_name teams' = Some T'
    /\ skills T' = skills T
    /\ members T' = (members T ++ map fresh_member added)%list
    /\ (forall m d, Dict.get m (members T) = Some d ->
                    Dict.get m (members T') = Some d)
    /\ (forall other, other <> team_name ->
                      Dict.get other teams' = Dict.get other teams)
    /\ Dict.keys teams' = Dict.keys teams
    /\ ((forall n, In n (parse_names text) -> Dict.mem n (members T) = true) ->
        teams' = teams).
Proof.
intros team_name text clicked teams T HT.
assert (Same : forall msgs : list message,
  exists teams' msgs' T' added,
    Ok (teams, msgs) = Ok (teams', msgs')
    /\ Dict.get team_name teams' = Some T'
    /\ skills T' = skills T
    /\ members T' = (members T ++ map fresh_member added)%list
    /\ (forall m d, Dict.get m (members T) = Some d ->
                    Dict.get m (members T') = Some d)
    /\ (forall other, other <> team_name ->
                      Dict.get other teams' = Dict.get other teams)
    /\ Dict.keys teams' = Dict.keys teams
    /\ ((forall n, In n (parse_names text) -> Dict.mem n (members T) = true) ->
        teams' = teams)).
{ intros msgs. exists teams, msgs, T, []. simpl. rewrite app_nil_r.
  repeat split; auto. }
unfold add_members.
destruct clicked; [|apply Same].
destruct (truthy text); [|apply Same].
destruct (parse_names text) as [|n names] eqn:P; [apply Same|].
rewrite HT.
destruct (fold_add_member_app (n :: names) (members T)) as [added [E _]].
eexists _, _, _, added. split; [reflexivity|].
split; [apply get_set_same|]. simpl skills. simpl members.
split; [reflexivity|]. split; [exact E|].
split; [intros m d Hm; now apply (fold_add_member_get (n :: names))|].
split; [intros other Ho; now apply get_set_other|].
split.
- apply keys_set_present. unfold Dict.mem. now rewrite HT.
- intros Hall. rewrite (fold_add_member_id (n :: names)) by exact Hall.
  destruct T as [ms sk]. simpl. now apply set_get_id.
Qed.

Lemma add_members_keeps_existing_witness :
  exists teams' msgs T' added,
    add_members "Alpha" "Ana, Ben" true
      [("Alpha", mkTeam [("Ana", [("Python", 7)])] DEFAULT_SKILLS)]
    = Ok (teams', msgs)
    /\ Dict.get "Alpha" teams' = Some T'
    /\ skills T' = DEFAULT_SKILLS
    /\ members T'
       = ([("Ana", [("Python", 7)])] ++ map fresh_member added)%list.
Proof.
destruct (add_members_keeps_existing "Alpha" "Ana, Ben" true
            [("Alpha", mkTeam [("Ana", [("Python", 7)])] DEFAULT_SKILLS)]
            eq_refl)
  as [teams' [msgs [T' [added [H1 [H2 [H3 [H4 _]]]]]]]].
exists teams', msgs, T', added. repeat split; assumption.
Defined.

(** * Aggregation *)

Lemma py_min_least : forall r x,
  In (py_min x r) (x :: r) /\ forall y, In y (x :: r) -> py_min x r <= y.
Proof.
unfold py_min.
induction r as [|a r IH]; intros x; simpl.
- split; [now left | intros y [<-|[]]; lia].
- destruct (IH (Z.min x a)) as [Hin Hle]. split.
  + destruct Hin as [E|Hin]; [|now right; right].
    rewrite <- E. destruct (Z.min_spec x a) as [[_ ->]|[_ ->]]; auto.
  + intros y Hy.
    assert (M : fold_left Z.min r (Z.min x a) <= Z.min x a)
      by (apply Hle; now left).
    destruct Hy as [<-|[<-|Hy]]; [lia | lia | apply Hle; now right].
Qed.

Lemma py_max_greatest : forall r x,
  In (py_max x r) (x :: r) /\ forall y, In y (x :: r) -> y <= py_max x r.
Proof.
unfold py_max.
induction r as [|a r IH]; intros x; simpl.
- split; [now left | intros y [<-|[]]; lia].
- destruct (IH (Z.max x a)) as [Hin Hle]. split.
  + destruct Hin as [E|Hin]; [|now right; right].
    rewrite <- E. destruct (Z.max_spec x a) as [[_ ->]|[_ ->]]; auto.
  + intros y Hy.
    assert (M : Z.max x a <= fold_left Z.max r (Z.max x a))
      by (apply Hle; now left).
    destruct Hy as [<-|[<-|Hy]]; [lia | lia | apply Hle; now right].
Qed.

Lemma py_sum_total : forall l, py_sum l = total l.
Proof.
unfold py_sum, total.
assert (G : forall l a, fold_left Z.add l a = a + fold_right Z.add 0 l).
{ induction l as [|x l IH]; intros a; simpl; [lia | rewrite IH; lia]. }
intros l. rewrite G. lia.
Qed.

Lemma competencies_In : forall skill ms level,
  In level (competencies skill ms)
  <-> exists e, In e ms /\ Dict.get skill (snd e) = Some level.
Proof.
intros skill ms level. unfold competencies. rewrite in_flat_map.
split; intros [e [He H]]; exists e; split; try assumption.
- destruct (Dict.get skill (snd e)); simpl in H; [|contradiction].
  destruct H as [->|[]]. reflexivity.
- rewrite H. now left.
Qed.

Lemma competencies_length : forall skill ms,
  List.length (competencies skill ms)
  = List.length (filter (fun e => Dict.mem skill (snd e)) ms).
Proof.
intros skill. unfold competencies, Dict.mem.
induction ms as [|e ms IH]; simpl; [reflexivity|].
rewrite length_app, IH.
destruct (Dict.get skill (snd e)); reflexivity.
Qed.

Lemma competencies_nil : forall skill ms,
  competencies skill ms = [] <-> has_contributor ms skill = false.
Proof.
intros skill. unfold competencies, has_contributor, Dict.mem.
induction ms as [|e ms IH]; simpl; [tauto|].
destruct (Dict.get skill (snd e)); simpl.
- split; discriminate.
- exact IH.
Qed.

Lemma records_of_snoc : forall ss mins maxs avgs s a b c,
  List.length mins = List.length ss ->
  List.length maxs = List.length ss ->
  List.length avgs = List.length ss ->
  records_of (ss ++ [s]) (mins ++ [a]) (maxs ++ [b]) (avgs ++ [c])
  = (records_of ss mins maxs avgs ++ [mkRecord s a b c])%list.
Proof.
induction ss as [|s0 ss IH]; intros [|a0 mins] [|b0 maxs] [|c0 avgs] s a b c;
  simpl; intros H1 H2 H3; try discriminate; [reflexivity|].
f_equal. apply IH; congruence.
Qed.

Lemma records_of_names : forall ss mins maxs avgs,
  List.length mins = List.length ss ->
  List.length maxs = List.length ss ->
  List.length avgs = List.length ss ->
  map skill_name (records_of ss mins maxs avgs) = ss.
Proof.
induction ss as [|s0 ss IH]; intros [|a0 mins] [|b0 maxs] [|c0 avgs];
  simpl; intros H1 H2 H3; try discriminate; [reflexivity|].
f_equal. apply IH; congruence.
Qed.

Lemma record_of_levels_ok : forall ms skill x r,
  competencies skill ms = x :: r ->
  record_ok ms
    (mkRecord skill (py_min x r) (py_max x r)
       (py_truediv (py_sum (x :: r)) (py_len (x :: r)))).
Proof.
intros ms skill x r E. unfold record_ok. simpl skill_name. rewrite E.
destruct (py_min_least r x) as [M1 M2].
destruct (py_max_greatest r x) as [X1 X2].
repeat split; try assumption; [discriminate|].
cbn [rec_average]. now rewrite py_sum_total.
Qed.

Lemma stats_step_inv : forall ms seen acc skill,
  stats_inv ms seen acc ->
  stats_inv ms (seen ++ [skill]) (stats_step ms acc skill).
Proof.
intros ms seen acc skill (L1 & L2 & L3 & S & R).
unfold stats_step, stats_inv. rewrite filter_app. simpl filter.
destruct (competencies skill ms) as [|x r] eqn:E.
- rewrite (proj1 (competencies_nil skill ms) E), app_nil_r. auto.
- assert (C : has_contributor ms skill = true).
  { destruct (has_contributor ms skill) eqn:C; [reflexivity|].
    apply competencies_nil in C. congruence. }
  rewrite C. simpl. rewrite !length_app. simpl.
  repeat split; try congruence.
  unfold records. simpl. rewrite records_of_snoc by assumption.
  apply Forall_app. split; [exact R|].
  constructor; [|constructor]. now apply record_of_levels_ok.
Qed.

Lemma skill_stats_inv : forall ms sk seen acc,
  stats_inv ms seen acc ->
  stats_inv ms (seen ++ sk) (fold_left (stats_step ms) sk acc).
Proof.
induction sk as [|skill sk IH]; intros seen acc H; simpl.
- now rewrite app_nil_r.
- replace (seen ++ skill :: sk)%list with ((seen ++ [skill]) ++ sk)%list
    by (now rewrite <- app_assoc).
  apply IH. now apply stats_step_inv.
Qed.

(** C1: the four columns have one entry per skill of the list that has at
    least one contributing member, in the order of the list; the record of
    such a skill holds the least and the greatest level among the members
    that have an entry for it, and as average the float quotient of the sum
    of those levels by their number, as Python's [/] gives it; a member
    without an entry adds no level. *)
Theorem skill_stats_correct : forall sk ms,
  List.length (Min (skill_stats sk ms)) = List.length (Skill (skill_stats sk ms))
  /\ List.length (Max (skill_stats sk ms)) = List.length (Skill (skill_stats sk ms))
  /\ List.length (Average (skill_stats sk ms))
     = List.length (Skill (skill_stats sk ms))
  /\ Skill (skill_stats sk ms) = filter (has_contributor ms) sk
  /\ map skill_name (records (skill_stats sk ms)) = filter (has_contributor ms) sk
  /\ Forall (record_ok ms) (records (skill_stats sk ms))
  /\ (forall skill,
        List.length (competencies skill ms)
        = List.length (filter (fun e => Dict.mem skill (snd e)) ms)
        /\ forall level,
             In level (competencies skill ms)
             <-> exists e, In e ms /\ Dict.get skill (snd e) = Some level).
Proof.
intros sk ms.
assert (I : stats_inv ms sk (skill_stats sk ms)).
{ unfold skill_stats. change sk with ([] ++ sk)%list at 1.
  apply skill_stats_inv. unfold stats_inv. simpl. repeat split; constructor. }
destruct I as (L1 & L2 & L3 & S & R).
repeat split; try assumption.
- unfold records. rewrite records_of_names by assumption. exact S.
- apply competencies_length.
- apply competencies_In.
- apply competencies_In.
Qed.

Lemma skill_stats_correct_witness :
  Skill (skill_stats ["X"; "Y"] [("A", [("X", 4)]); ("B", [])]) = ["X"]
  /\ Forall (record_ok [("A", [("X", 4)]); ("B", [])])
       (records (skill_stats ["X"; "Y"] [("A", [("X", 4)]); ("B", [])])).
Proof.
pose proof (skill_stats_correct ["X"; "Y"] [("A", [("X", 4)]); ("B", [])]) as H.
split; [exact (proj1 (proj2 (proj2 (proj2 H))))
       | exact (proj1 (proj2 (proj2 (proj2 (proj2 (proj2 H))))))].
Defined.

(** The examples of the specification: one contributor, and two. *)
Example aggregate_one_contributor :
  records (skill_stats ["X"] [("A", [("X", 4)]); ("B", [])])
  = [mkRecord "X" 4 4 (SpecFloat.S754_finite false 4503599627370496 (-50))]
  /\ float_is_quotient (SpecFloat.S754_finite false 4503599627370496 (-50)) 4 1.
Proof. split; reflexivity. Qed.

Example aggregate_python :
  records (skill_stats ["Python"] [("Ana", [("Python", 7)]); ("Ben", [("Python", 3)])])
  = [mkRecord "Python" 3 7 (SpecFloat.S754_finite false 5629499534213120 (-50))]
  /\ float_is_quotient (SpecFloat.S754_finite false 5629499534213120 (-50)) 10 2.
Proof. split; reflexivity. Qed.

(** C1 as stated fails: for the levels 1, 0 and 0 the average is the float
    nearest to a third, which is not the exact quotient of the sum 1 by the
    count 3. *)
Lemma average_is_rounded :
  records (skill_stats ["X"]
             [("A", [("X", 1)]); ("B", [("X", 0)]); ("C", [("X", 0)])])
  = [mkRecord "X" 0 1 (SpecFloat.S754_finite false 6004799503160661 (-54))]
  /\ total (competencies "X"
              [("A", [("X", 1)]); ("B", [("X", 0)]); ("C", [("X", 0)])]) = 1
  /\ List.length (competencies "X"
                    [("A", [("X", 1)]); ("B", [("X", 0)]); ("C", [("X", 0)])])
     = 3%nat
  /\ ~ float_is_quotient
        (SpecFloat.S754_finite false 6004799503160661 (-54)) 1 3.
Proof.
split; [reflexivity|]. split; [reflexivity|]. split; [reflexivity|].
unfold float_is_quotient. simpl. discriminate.
Qed.

(** * Rendering rule *)

Lemma skill_stats_empty : forall sk ms,
  sk = [] \/ ms = [] -> skill_stats sk ms = mkStats [] [] [] [].
Proof.
intros sk ms [->| ->]; [reflexivity|].
unfold skill_stats. induction sk as [|s sk IH]; simpl; [reflexivity | exact IH].
Qed.

Lemma nonempty_false : forall (A : Type) (l : list A),
  nonempty l = false <-> l = [].
Proof. intros A [|x l]; simpl; split; congruence. Qed.

Lemma warnings_differ : forall team_name category category' n,
  no_data_warning team_name category <> count_warning category' n.
Proof. intros. unfold no_data_warning, count_warning. simpl. discriminate. Qed.

(** C2, as the code has it: for a team of the state, a figure is returned
    exactly when the number of skills with a contributor is between 5 and 8,
    and it carries the aggregated columns; otherwise nothing is returned and
    one warning is given: the one with the count, equal to that number, when
    the category has skills and the team has members, and the one asking to
    add skills and members first, which holds no count, when either is
    empty. *)
Theorem chart_iff_count_in_range :
  forall team_name category teams team_data,
  Dict.get team_name teams = Some team_data ->
  exists fig msgs,
    display_category_radar_chart team_name category teams = Ok (fig, msgs)
    /\ (fig <> None
        <-> (5 <= List.length (Skill (skill_stats (category_skills category team_data)
                                   (members team_data))) <= 8)%nat)
    /\ (forall f, fig = Some f ->
          msgs = []
          /\ fig_theta f = Skill (skill_stats (category_skills category team_data)
                                    (members team_data))
          /\ fig_min f = Min (skill_stats (category_skills category team_data)
                                (members team_data))
          /\ fig_max f = Max (skill_stats (category_skills category team_data)
                                (members team_data))
          /\ fig_average f = Average (skill_stats (category_skills category team_data)
                                        (members team_data)))
    /\ (fig = None ->
          (category_skills category team_data <> [] ->
           members team_data <> [] ->
           msgs = [count_warning category
                     (List.length (Skill (skill_stats (category_skills category team_data)
                                       (members team_data))))])
          /\ (category_skills category team_data = [] \/ members team_data = [] ->
              msgs = [no_data_warning team_name category])).
Proof.
intros team_name category teams team_data HT.
unfold display_category_radar_chart. rewrite HT.
set (sk := category_skills category team_data).
set (ms := members team_data).
destruct (negb (nonempty sk) || negb (nonempty ms)) eqn:G.
- assert (E : sk = [] \/ ms = []).
  { apply orb_true_iff in G. destruct G as [G|G];
      apply negb_true_iff, nonempty_false in G; auto. }
  rewrite (skill_stats_empty E). simpl.
  exists None, [no_data_warning team_name category].
  split; [reflexivity|]. split; [|split].
  + split; [intros H; now contradiction H | lia].
  + discriminate.
  + intros _. split; [|reflexivity].
    intros Hs Hm. destruct E; contradiction.
- apply orb_false_iff in G. destruct G as [G1 G2].
  apply negb_false_iff in G1, G2.
  assert (N1 : sk <> []) by (intros E; rewrite E in G1; discriminate).
  assert (N2 : ms <> []) by (intros E; rewrite E in G2; discriminate).
  destruct ((List.length (Skill (skill_stats sk ms)) <? 5)%nat
            || (8 <? List.length (Skill (skill_stats sk ms)))%nat) eqn:R.
  + eexists _, _. split; [reflexivity|].
    apply orb_true_iff in R. rewrite !Nat.ltb_lt in R.
    split; [|split].
    * split; [intros H; now contradiction H | lia].
    * discriminate.
    * intros _. split; [reflexivity|].
      intros [E|E]; contradiction.
  + eexists _, _. split; [reflexivity|].
    apply orb_false_iff in R. rewrite !Nat.ltb_ge in R.
    split; [|split].
    * split; [lia | discriminate].
    * intros f [= <-]. simpl. repeat split.
    * discriminate.
Qed.

Lemma chart_iff_count_in_range_witness :
  exists fig msgs,
    display_category_radar_chart "Alpha" "Technical"
      [("Alpha",
        mkTeam [("Ana", [("Databricks", 1); ("Python", 7); ("NodeJS", 0);
                         ("SQL", 10); ("Gitlab", 4)])]
          DEFAULT_SKILLS)]
    = Ok (fig, msgs)
    /\ (fig <> None <-> (5 <= 5 <= 8)%nat).
Proof.
destruct (chart_iff_count_in_range "Alpha" "Technical"
            [("Alpha",
              mkTeam [("Ana", [("Databricks", 1); ("Python", 7); ("NodeJS", 0);
                               ("SQL", 10); ("Gitlab", 4)])]
                DEFAULT_SKILLS)]
            eq_refl)
  as (fig & msgs & H1 & H2 & _).
exists fig, msgs. split; [exact H1 | exact H2].
Defined.

(** C2 as stated fails: a team without members has no eligible skill in the
    Technical category, the count 0 is outside 5..8, and the notice given is
    not the one that reports the count. *)
Lemma no_members_notice_without_count :
  List.length (Skill (skill_stats (category_skills "Technical" new_team)
                        (members new_team))) = 0%nat
  /\ display_category_radar_chart "Alpha" "Technical" [("Alpha", new_team)]
     = Ok (None, [no_data_warning "Alpha" "Technical"])
  /\ no_data_warning "Alpha" "Technical" <> count_warning "Technical" 0.
Proof.
split; [reflexivity|]. split; [reflexivity|]. apply warnings_differ.
Qed.

(** The rule at 4, 5, 8 and 9 eligible skills. *)
Example renderable_bounds :
  forall fig msgs n,
  In n [4; 5; 8; 9]%nat ->
  display_category_radar_chart "T" "Domain"
    [("T", mkTeam [("m", map (fun s => (s, 5)) (firstn n ["a"; "b"; "c"; "d"; "e"; "f"; "g"; "h"; "i"]))]
             [("Domain", ["a"; "b"; "c"; "d"; "e"; "f"; "g"; "h"; "i"])])]
  = Ok (fig, msgs) ->
  (fig <> None <-> n = 5%nat \/ n = 8%nat)
  /\ (fig = None -> msgs = [count_warning "Domain" n]).
Proof.
intros fig msgs n [<-|[<-|[<-|[<-|[]]]]]; vm_compute; intros [= <- <-];
  (split; [split; [intros H; try (now contradiction H); auto
                  | intros [E|E]; discriminate]
          | try reflexivity; discriminate]).
Qed.

(** C5, as the code has it: for a team of the state, when the category has
    no skill or the team has no member, the call returns without raising,
    returns no figure, and gives the warning that asks to add skills and
    members first, which holds no count; aggregating there gives no record. *)
Theorem empty_inputs_not_rendered :
  forall team_name category teams team_data,
  Dict.get team_name teams = Some team_data ->
  category_skills category team_data = [] \/ members team_data = [] ->
  display_category_radar_chart team_name category teams
  = Ok (None, [no_data_warning team_name category])
  /\ records (skill_stats (category_skills category team_data)
                (members team_data)) = []
  /\ forall n, no_data_warning team_name category <> count_warning category n.
Proof.
intros team_name category teams team_data HT E.
split; [|split].
- unfold display_category_radar_chart. rewrite HT.
  destruct E as [E|E]; rewrite E; simpl; [reflexivity|].
  now rewrite orb_true_r.
- now rewrite (skill_stats_empty E).
- intros n. apply warnings_differ.
Qed.

Lemma empty_inputs_not_rendered_witness :
  display_category_radar_chart "Alpha" "Domain" [("Alpha", new_team)]
  = Ok (None, [no_data_warning "Alpha" "Domain"]).
Proof.
exact (proj1 (empty_inputs_not_rendered "Alpha" "Domain"
                [("Alpha", new_team)] eq_refl (or_intror eq_refl))).
Defined.

(** C5 as stated fails: for a category without skills, and for a team
    without members, the request is not reported with the count. *)
Lemma no_skills_notice_without_count :
  category_skills "Other" (mkTeam [("Ana", [])] DEFAULT_SKILLS) = []
  /\ display_category_radar_chart "Alpha" "Other"
       [("Alpha", mkTeam [("Ana", [])] DEFAULT_SKILLS)]
     = Ok (None, [no_data_warning "Alpha" "Other"])
  /\ no_data_warning "Alpha" "Other" <> count_warning "Other" 0
  /\ display_category_radar_chart "Alpha" "Operational" [("Alpha", new_team)]
     = Ok (None, [no_data_warning "Alpha" "Operational"])
  /\ no_data_warning "Alpha" "Operational" <> count_warning "Operational" 0.
Proof.
split; [reflexivity|]. split; [reflexivity|]. split; [apply warnings_differ|].
split; [reflexivity | apply warnings_differ].
Qed.

(** * assign_competency *)

Lemma mem_same_keys : forall (V W : Type) (d : Dict.t V) (d' : Dict.t W) k,
  Dict.keys d = Dict.keys d' -> Dict.mem k d = Dict.mem k d'.
Proof.
intros V W d d' k E.
destruct (Dict.mem k d) eqn:A, (Dict.mem k d') eqn:B; try reflexivity.
- apply mem_keys in A. rewrite E in A. apply mem_keys in A. congruence.
- apply mem_keys in B. rewrite <- E in B. apply mem_keys in B. congruence.
Qed.

Lemma str_in_keys : forall (V : Type) (d : Dict.t V) k,
  str_in k (Dict.keys d) = Dict.mem k d.
Proof.
intros V d k. unfold str_in, Dict.mem.
induction d as [|[k0 v0] r IH]; simpl; [reflexivity|].
destruct (String.eqb k k0); simpl; [reflexivity | exact IH].
Qed.

Lemma str_in_In : forall x l, str_in x l = true <-> In x l.
Proof.
intros x l. unfold str_in. rewrite existsb_exists. split.
- intros [y [Hy E]]. apply String.eqb_eq in E. now subst.
- intros H. exists x. split; [assumption | apply String.eqb_refl].
Qed.

Lemma keys_store_level : forall m s v ms,
  Dict.keys (store_level m s v ms) = Dict.keys ms.
Proof.
intros m s v ms. unfold store_level.
destruct (Dict.get m ms) eqn:E; [|reflexivity].
apply keys_set_present. unfold Dict.mem. now rewrite E.
Qed.

Lemma level_of_store_level : forall m s v ms m' s',
  level_of (store_level m s v ms) m' s'
  = if String.eqb m' m && String.eqb s' s && Dict.mem m ms
    then Some v else level_of ms m' s'.
Proof.
intros m s v ms m' s'. unfold store_level, level_of, Dict.mem.
destruct (Dict.get m ms) as [d|] eqn:E.
- rewrite get_set. destruct (String.eqb_spec m' m) as [->|N]; simpl.
  + rewrite E, get_set. destruct (String.eqb s' s); reflexivity.
  + reflexivity.
- now rewrite andb_false_r.
Qed.

Section AssignLoops.
Variable slider : string -> Z.
Variable team_name : string.

Lemma store_loop : forall skill names ms m s,
  Dict.keys
    (fold_left
       (fun ms member_name =>
          store_level member_name skill
            (slider (slider_key team_name member_name skill)) ms)
       names ms)
  = Dict.keys ms
  /\ level_of
       (fold_left
          (fun ms member_name =>
             store_level member_name skill
               (slider (slider_key team_name member_name skill)) ms)
          names ms) m s
     = if String.eqb s skill && str_in m names && Dict.mem m ms
       then Some (slider (slider_key team_name m skill))
       else level_of ms m s.
Proof.
intros skill names. induction names as [|n names IH]; intros ms m s.
- simpl. split; [reflexivity|]. now rewrite andb_false_r.
- cbn [fold_left].
  destruct (IH (store_level n skill (slider (slider_key team_name n skill)) ms)
              m s) as [K L].
  split; [now rewrite K, keys_store_level|].
  rewrite L, level_of_store_level.
  rewrite (mem_same_keys _ ms m (keys_store_level _ _ _ _)).
  unfold str_in. cbn [existsb]. fold (str_in m names).
  destruct (String.eqb_spec m n) as [->|N]; simpl.
  + destruct (String.eqb s skill), (str_in n names), (Dict.mem n ms);
      reflexivity.
  + reflexivity.
Qed.

Lemma store_skill_spec : forall skill ms m s,
  Dict.keys (store_skill slider team_name skill ms) = Dict.keys ms
  /\ level_of (store_skill slider team_name skill ms) m s
     = if String.eqb s skill && Dict.mem m ms
       then Some (slider (slider_key team_name m skill))
       else level_of ms m s.
Proof.
intros skill ms m s. unfold store_skill.
destruct (store_loop skill (Dict.keys ms) ms m s) as [K L].
split; [exact K|]. rewrite L, str_in_keys.
destruct (String.eqb s skill), (Dict.mem m ms); reflexivity.
Qed.

Lemma store_skills_spec : forall sk ms m s,
  Dict.keys
    (fold_left (fun ms skill => store_skill slider team_name skill ms) sk ms)
  = Dict.keys ms
  /\ level_of
       (fold_left (fun ms skill => store_skill slider team_name skill ms) sk ms)
       m s
     = if str_in s sk && Dict.mem m ms
       then Some (slider (slider_key team_name m s))
       else level_of ms m s.
Proof.
induction sk as [|skill sk IH]; intros ms m s.
- simpl. split; reflexivity.
- cbn [fold_left].
  destruct (IH (store_skill slider team_name skill ms) m s) as [K L].
  destruct (store_skill_spec skill ms m s) as [K1 L1].
  split; [now rewrite K|].
  rewrite L, L1, (mem_same_keys _ ms m K1).
  unfold str_in. cbn [existsb]. fold (str_in s sk).
  destruct (String.eqb_spec s skill) as [->|N]; simpl.
  + destruct (str_in skill sk), (Dict.mem m ms); reflexivity.
  + reflexivity.
Qed.

Lemma store_all_spec : forall cats ms m s,
  Dict.keys (store_all slider team_name cats ms) = Dict.keys ms
  /\ level_of (store_all slider team_name cats ms) m s
     = if existsb (fun cat => str_in s (snd cat)) cats && Dict.mem m ms
       then Some (slider (slider_key team_name m s))
       else level_of ms m s.
Proof.
unfold store_all.
induction cats as [|cat cats IH]; intros ms m s.
- simpl. split; reflexivity.
- cbn [fold_left].
  destruct (IH (fold_left
                  (fun ms skill => store_skill slider team_name skill ms)
                  (snd cat) ms) m s) as [K L].
  destruct (store_skills_spec (snd cat) ms m s) as [K1 L1].
  split; [now rewrite K|].
  rewrite L, L1, (mem_same_keys _ ms m K1). cbn [existsb].
  destruct (str_in s (snd cat)), (existsb (fun c => str_in s (snd c)) cats),
    (Dict.mem m ms); reflexivity.
Qed.

End AssignLoops.

(** ** The loops with the sliders' exceptions *)

Lemma st_slider_value : forall slider a b key used v,
  st_slider slider a b key used = inr v ->
  v = slider key /\ a <= v <= b /\ str_in key used = false.
Proof.
intros slider a b key used v. unfold st_slider.
destruct (str_in key used); [discriminate|].
destruct ((a <=? slider key) && (slider key <=? b)) eqn:R; [|discriminate].
intros [= <-]. apply andb_true_iff in R. destruct R as [R1 R2].
apply Z.leb_le in R1, R2. auto.
Qed.

Section SliderLoops.
Variable slider : string -> Z.
Variable team_name : string.

(** A property of the members that every store of the loops keeps. *)
Variable Q : Dict.t (Dict.t Z) -> Prop.
Variable allowed : string -> Prop.
Hypothesis Q_store : forall m s v ms,
  allowed s -> 0 <= v <= 10 -> v = slider (slider_key team_name m s) ->
  Q ms -> Q (store_level m s v ms).

Lemma assign_member_keeps : forall skill p m,
  allowed skill -> Q (p_members p) ->
  Q (p_members (assign_member slider team_name skill p m)).
Proof.
intros skill p m A H. unfold assign_member.
destruct (p_raised p); [exact H|].
destruct (st_slider slider 0 10 (slider_key team_name m skill) (p_used p))
  as [e|v] eqn:E; [exact H|].
destruct (st_slider_value _ _ _ _ _ E) as (Ev & R & _).
cbn [p_members]. now apply Q_store.
Qed.

Lemma assign_skill_keeps : forall skill p,
  allowed skill -> Q (p_members p) ->
  Q (p_members (assign_skill slider team_name p skill)).
Proof.
intros skill p A. unfold assign_skill. generalize (Dict.keys (p_members p)).
intros names. revert p. induction names as [|n names IH]; intros p H.
- exact H.
- cbn [fold_left]. apply IH. now apply assign_member_keeps.
Qed.

Lemma assign_all_keeps : forall sk p,
  (forall cat s, In cat sk -> In s (snd cat) -> allowed s) ->
  Q (p_members p) -> Q (p_members (assign_all slider team_name sk p)).
Proof.
unfold assign_all. induction sk as [|cat sk IH]; intros p A H.
- exact H.
- cbn [fold_left]. apply IH.
  + intros c s Hc. apply A. now right.
  + assert (G : forall l q, (forall s, In s l -> allowed s) ->
      Q (p_members q) ->
      Q (p_members (fold_left (assign_skill slider team_name) l q))).
    { induction l as [|s l IHl]; intros q Al Hq; [exact Hq|].
      cbn [fold_left]. apply IHl.
      - intros x Hx. apply Al. now right.
      - apply assign_skill_keeps; [apply Al; now left | exact Hq]. }
    apply G; [|exact H]. intros s Hs. apply (A cat s); [now left | exact Hs].
Qed.

End SliderLoops.

Section SliderRuns.
Variable slider : string -> Z.
Variable team_name : string.

Lemma assign_member_clean : forall skill p m,
  p_raised (assign_member slider team_name skill p m) = None ->
  p_raised p = None
  /\ p_members (assign_member slider team_name skill p m)
     = store_level m skill (slider (slider_key team_name m skill)) (p_members p).
Proof.
intros skill p m. unfold assign_member.
destruct (p_raised p) eqn:R; [congruence|].
destruct (st_slider slider 0 10 (slider_key team_name m skill) (p_used p))
  as [e|v] eqn:E; cbn [p_raised p_members]; [discriminate|].
intros _. destruct (st_slider_value _ _ _ _ _ E) as (-> & _). now split.
Qed.

Lemma assign_members_clean : forall skill names p,
  p_raised (fold_left (assign_member slider team_name skill) names p) = None ->
  p_raised p = None
  /\ p_members (fold_left (assign_member slider team_name skill) names p)
     = fold_left
         (fun ms member_name =>
            store_level member_name skill
              (slider (slider_key team_name member_name skill)) ms)
         names (p_members p).
Proof.
intros skill. induction names as [|n names IH]; intros p H.
- now split.
- cbn [fold_left] in *. destruct (IH _ H) as [R E].
  destruct (assign_member_clean _ _ _ R) as [R0 E0].
  split; [exact R0|]. now rewrite E, E0.
Qed.

Lemma assign_skill_clean : forall skill p,
  p_raised (assign_skill slider team_name p skill) = None ->
  p_raised p = None
  /\ p_members (assign_skill slider team_name p skill)
     = store_skill slider team_name skill (p_members p).
Proof. intros skill p H. now apply assign_members_clean. Qed.

Lemma assign_skills_clean : forall l p,
  p_raised (fold_left (assign_skill slider team_name) l p) = None ->
  p_raised p = None
  /\ p_members (fold_left (assign_skill slider team_name) l p)
     = fold_left (fun ms skill => store_skill slider team_name skill ms) l
         (p_members p).
Proof.
induction l as [|s l IH]; intros p H.
- now split.
- cbn [fold_left] in *. destruct (IH _ H) as [R E].
  destruct (assign_skill_clean _ _ R) as [R0 E0].
  split; [exact R0|]. now rewrite E, E0.
Qed.

(** When no slider raised, the loops stored what [store_all] says. *)
Lemma assign_all_clean : forall sk p,
  p_raised (assign_all slider team_name sk p) = None ->
  p_raised p = None
  /\ p_members (assign_all slider team_name sk p)
     = store_all slider team_name sk (p_members p).
Proof.
unfold assign_all, store_all. induction sk as [|cat sk IH]; intros p H.
- now split.
- cbn [fold_left] in *. destruct (IH _ H) as [R E].
  destruct (assign_skills_clean _ _ R) as [R0 E0].
  split; [exact R0|]. now rewrite E, E0.
Qed.

Lemma assign_member_same : forall skill p q m,
  same_run p q ->
  same_run (assign_member slider team_name skill p m)
    (assign_member slider team_name skill q m).
Proof.
intros skill p q m (K & U & R). unfold assign_member.
destruct (p_raised p) as [e|] eqn:Rp; rewrite <- R.
- unfold same_run. rewrite Rp. auto.
- rewrite <- U.
  destruct (st_slider slider 0 10 (slider_key team_name m skill) (p_used p));
    unfold same_run; cbn [p_members p_used p_raised]; [auto|].
  rewrite !keys_store_level. auto.
Qed.

Lemma assign_skill_same : forall skill p q,
  same_run p q ->
  same_run (assign_skill slider team_name p skill)
    (assign_skill slider team_name q skill).
Proof.
intros skill p q H. unfold assign_skill.
rewrite <- (proj1 H).
assert (G : forall names p0 q0, same_run p0 q0 ->
  same_run (fold_left (assign_member slider team_name skill) names p0)
    (fold_left (assign_member slider team_name skill) names q0)).
{ induction names as [|n names IH]; intros p0 q0 H0; [exact H0|].
  cbn [fold_left]. apply IH. now apply assign_member_same. }
now apply G.
Qed.

Lemma assign_all_same : forall sk p q,
  same_run p q ->
  same_run (assign_all slider team_name sk p) (assign_all slider team_name sk q).
Proof.
unfold assign_all. induction sk as [|cat sk IH]; intros p q H; [exact H|].
cbn [fold_left]. apply IH. generalize (snd cat). intros l. revert p q H.
induction l as [|s l IHl]; intros p q H; [exact H|].
cbn [fold_left]. apply IHl. now apply assign_skill_same.
Qed.

Lemma assign_all_keys : forall sk p,
  Dict.keys (p_members (assign_all slider team_name sk p))
  = Dict.keys (p_members p).
Proof.
intros sk p.
apply (@assign_all_keeps slider team_name
         (fun ms => Dict.keys ms = Dict.keys (p_members p)) (fun _ => True)).
- intros m s v ms _ _ _ H. now rewrite keys_store_level.
- auto.
- reflexivity.
Qed.

End SliderRuns.

(** What [assign_competency] returns on a team that has skills: the stores
    of the loops, made in the team, with or without an exception. *)
Lemma assign_competency_outcome : forall slider used t teams T,
  Dict.get t teams = Some T ->
  existsb nonempty (Dict.values (skills T)) = true ->
  (p_raised (assign_all slider t (skills T) (mkProgress (members T) used None))
   = None
   /\ assign_competency slider used t teams
      = Ok (Dict.set t
              (mkTeam (store_all slider t (skills T) (members T)) (skills T))
              teams,
            []))
  \/ (exists e,
        p_raised (assign_all slider t (skills T)
                    (mkProgress (members T) used None)) = Some e
        /\ assign_competency slider used t teams
           = Raised e
               (Dict.set t
                  (mkTeam
                     (p_members (assign_all slider t (skills T)
                                   (mkProgress (members T) used None)))
                     (skills T))
                  teams)).
Proof.
intros slider used t teams T HT Hany. unfold assign_competency.
rewrite HT, Hany. cbn [negb].
destruct (p_raised (assign_all slider t (skills T)
                      (mkProgress (members T) used None))) as [e|] eqn:R.
- right. exists e. now split.
- left. split; [reflexivity|].
  destruct (assign_all_clean _ _ _ _ R) as [_ E]. now rewrite E.
Qed.

(** What a normal return of [assign_competency] tells. *)
Lemma assign_competency_ok : forall slider used t teams T teams' msgs,
  Dict.get t teams = Some T ->
  assign_competency slider used t teams = Ok (teams', msgs) ->
  (existsb nonempty (Dict.values (skills T)) = false /\ teams' = teams
   /\ msgs = [st_warning ("No skills added to team '" ++ t
                          ++ "'. Please add skills first.")])
  \/ (existsb nonempty (Dict.values (skills T)) = true
      /\ msgs = []
      /\ teams' = Dict.set t
                    (mkTeam (store_all slider t (skills T) (members T))
                       (skills T))
                    teams
      /\ p_raised (assign_all slider t (skills T)
                     (mkProgress (members T) used None)) = None).
Proof.
intros slider used t teams T teams' msgs HT E.
destruct (existsb nonempty (Dict.values (skills T))) eqn:Hany.
- right. destruct (assign_competency_outcome slider used t teams HT Hany)
    as [[R E']|[e [R E']]]; rewrite E' in E; [|discriminate].
  injection E as <- <-. auto.
- left. unfold assign_competency in E. rewrite HT, Hany in E.
  cbn [negb] in E. injection E as <- <-. auto.
Qed.

(** The state after the call, returned or left behind by an exception. *)
Lemma assign_competency_state : forall slider used t teams T teams',
  Dict.get t teams = Some T ->
  (exists msgs, assign_competency slider used t teams = Ok (teams', msgs))
  \/ (exists e, assign_competency slider used t teams = Raised e teams') ->
  teams' = teams
  \/ teams' = Dict.set t
                (mkTeam
                   (p_members (assign_all slider t (skills T)
                                 (mkProgress (members T) used None)))
                   (skills T))
                teams.
Proof.
intros slider used t teams T teams' HT H. unfold assign_competency in H.
rewrite HT in H.
destruct (negb (existsb nonempty (Dict.values (skills T)))).
- destruct H as [[msgs H]|[e H]]; [|discriminate]. injection H as <- _. now left.
- right.
  destruct (p_raised (assign_all slider t (skills T)
                        (mkProgress (members T) used None)));
    destruct H as [[msgs H]|[e' H]]; try discriminate; now injection H.
Qed.

(** C3 on a team that lists a skill in two categories: Python was added
    to the Domain category of team Alpha (the check of [add_skills] looks at
    one category), and Ana is its member.  The state is reachable and the
    team has skills, yet the call does not return: the key of the slider
    holds no category, the second slider for Python repeats the key of the
    first, Streamlit raises, and the skills of the Operational category are
    left without a level for Ana. *)
Theorem assign_competency_repeated_key :
  reachable python_twice
  /\ (exists T,
        Dict.get "Alpha" python_twice = Some T
        /\ existsb nonempty (Dict.values (skills T)) = true
        /\ In "Ana" (Dict.keys (members T))
        /\ In "Python" (category_skills "Technical" T)
        /\ In "Python" (category_skills "Domain" T)
        /\ In "SAFe" (category_skills "Operational" T))
  /\ assign_competency (fun _ => 0) [] "Alpha" python_twice
     = Raised (DuplicateWidgetID "Alpha_Ana_Python") python_stopped
  /\ score python_stopped "Alpha" "Ana" "Python" = Some 0
  /\ score python_stopped "Alpha" "Ana" "target" = Some 0
  /\ score python_stopped "Alpha" "Ana" "SAFe" = None.
Proof.
split; [|split; [|split; [|split; [|split]]]].
- eapply reach_add_members with (name := "Alpha") (text := "Ana")
    (clicked := true).
  + eapply reach_add_skills with (name := "Alpha")
      (widgets := fun c => if String.eqb c "Domain" then ("Python", true)
                           else (EmptyString, false)).
    * exact (reach_add_team "Alpha" true reach_init).
    * reflexivity.
  + reflexivity.
- eexists. split; [reflexivity|]. split; [reflexivity|].
  cbn. repeat split; tauto.
- vm_compute. reflexivity.
- vm_compute. reflexivity.
- vm_compute. reflexivity.
- vm_compute. reflexivity.
Qed.

(** X18: when [assign_competency] returns on a team that has skills, it
    gave no warning, the team keeps its members and its skills, and every
    member has, for every skill of every category of the team, the value of
    that member's slider for the skill as recorded level. *)
Theorem assign_scores_when_returns :
  forall slider used team_name teams T teams' msgs,
  Dict.get team_name teams = Some T ->
  existsb nonempty (Dict.values (skills T)) = true ->
  assign_competency slider used team_name teams = Ok (teams', msgs) ->
  msgs = []
  /\ exists T',
       Dict.get team_name teams' = Some T'
       /\ Dict.keys (members T') = Dict.keys (members T)
       /\ skills T' = skills T
       /\ forall member category sk skill,
            In member (Dict.keys (members T)) ->
            In (category, sk) (skills T) ->
            In skill sk ->
            level_of (members T') member skill
            = Some (slider (slider_key team_name member skill)).
Proof.
intros slider used team_name teams T teams' msgs HT Hany E.
destruct (assign_competency_ok _ _ _ _ HT E)
  as [(N & _)|(_ & -> & -> & _)]; [congruence|].
split; [reflexivity|]. eexists. split; [apply get_set_same|]. simpl.
split; [apply (store_all_spec slider team_name (skills T) (members T)
                 EmptyString EmptyString)|].
split; [reflexivity|].
intros member category sk skill Hm Hc Hs.
rewrite (proj2 (store_all_spec slider team_name (skills T) (members T)
                  member skill)).
apply mem_keys in Hm. rewrite Hm.
assert (X : existsb (fun cat => str_in skill (snd cat)) (skills T) = true).
{ apply existsb_exists. exists (category, sk). split; [assumption|].
  now apply str_in_In. }
now rewrite X.
Qed.

Lemma assign_scores_when_returns_witness :
  exists teams' T',
    assign_competency (fun _ => 6) [] "Alpha"
      [("Alpha", mkTeam [("Ana", []); ("Ben", [("SQL", 2)])] DEFAULT_SKILLS)]
    = Ok (teams', [])
    /\ Dict.get "Alpha" teams' = Some T'
    /\ level_of (members T') "Ben" "SQL" = Some 6.
Proof.
destruct (assign_competency (fun _ => 6) [] "Alpha"
            [("Alpha", mkTeam [("Ana", []); ("Ben", [("SQL", 2)])] DEFAULT_SKILLS)])
  as [[teams' msgs]|k|e teams'] eqn:E;
  [|vm_compute in E; discriminate E|vm_compute in E; discriminate E].
destruct (@assign_scores_when_returns (fun _ => 6) [] "Alpha"
            [("Alpha", mkTeam [("Ana", []); ("Ben", [("SQL", 2)])] DEFAULT_SKILLS)]
            (mkTeam [("Ana", []); ("Ben", [("SQL", 2)])] DEFAULT_SKILLS)
            teams' msgs eq_refl eq_refl E)
  as (-> & T' & H2 & _ & _ & H5).
exists teams', T'. split; [reflexivity|]. split; [exact H2|].
apply (H5 "Ben" "Technical" ["Databricks"; "Python"; "NodeJS"; "SQL"; "Gitlab"] "SQL").
- simpl. auto.
- simpl. auto.
- simpl. auto.
Defined.
(** * Reachable states *)

Lemma member_ok_set : forall d s v,
  0 <= v <= 10 -> member_ok d -> member_ok (Dict.set s v d).
Proof.
intros d s v Hv [W B]. split; [now apply wf_set | now apply Forall_set].
Qed.

Lemma members_ok_store : forall m s v ms,
  0 <= v <= 10 -> members_ok ms -> members_ok (store_level m s v ms).
Proof.
intros m s v ms Hv [W F]. unfold store_level.
destruct (Dict.get m ms) as [d|] eqn:E; [|now split].
split; [now apply wf_set|].
apply Forall_set; [assumption|]. simpl. apply member_ok_set; [assumption|].
rewrite Forall_forall in F. exact (F _ (get_In _ _ E)).
Qed.

Lemma members_ok_assign_all : forall slider team_name sk p,
  members_ok (p_members p) ->
  members_ok (p_members (assign_all slider team_name sk p)).
Proof.
intros slider team_name sk p H.
apply (@assign_all_keeps slider team_name members_ok (fun _ => True)).
- intros m s v ms _ Hv _ Hms. now apply members_ok_store.
- auto.
- exact H.
Qed.

Lemma members_ok_add_members : forall names ms,
  members_ok ms -> members_ok (fold_left add_member names ms).
Proof.
induction names as [|n names IH]; intros ms H; simpl.
- assumption.
- apply IH. unfold add_member.
  destruct (truthy n && negb (Dict.mem n ms)); [|assumption].
  destruct H as [W F]. split; [now apply wf_set|].
  apply Forall_set; [assumption|]. split; constructor.
Qed.

Lemma session_ok_get : forall teams t T,
  session_ok teams -> Dict.get t teams = Some T ->
  t <> EmptyString /\ members_ok (members T).
Proof.
intros teams t T (W & F & N) H. split.
- intros ->. unfold Dict.mem in N. now rewrite H in N.
- rewrite Forall_forall in F. exact (F _ (get_In _ _ H)).
Qed.

Lemma session_ok_set : forall teams t T,
  session_ok teams -> t <> EmptyString -> members_ok (members T) ->
  session_ok (Dict.set t T teams).
Proof.
intros teams t T (W & F & N) Ht HT.
split; [now apply wf_set|]. split; [now apply Forall_set|].
rewrite mem_set, N, orb_false_r.
destruct (String.eqb_spec EmptyString t); [congruence | reflexivity].
Qed.

Lemma session_ok_add_team : forall name clicked teams,
  session_ok teams -> session_ok (fst (add_team name clicked teams)).
Proof.
intros name clicked teams H. unfold add_team.
destruct clicked; [|assumption].
destruct (truthy name && negb (Dict.mem name teams)) eqn:C.
- simpl. apply andb_true_iff in C. destruct C as [C _].
  apply session_ok_set; [assumption| |].
  + intros ->. discriminate.
  + split; constructor.
- destruct (Dict.mem name teams); assumption.
Qed.

Lemma session_ok_add_members : forall name text clicked teams teams' msgs,
  session_ok teams ->
  add_members name text clicked teams = Ok (teams', msgs) ->
  session_ok teams'.
Proof.
intros name text clicked teams teams' msgs H. unfold add_members.
destruct clicked; [|now intros [= <- _]].
destruct (truthy text); [|now intros [= <- _]].
destruct (parse_names text) as [|n names]; [now intros [= <- _]|].
destruct (Dict.get name teams) as [T|] eqn:E; [|discriminate].
intros [= <- _]. destruct (session_ok_get _ H E) as [Hn HT].
apply session_ok_set; [assumption | assumption|].
cbn [members]. now apply (members_ok_add_members (n :: names)).
Qed.

Lemma session_ok_add_skills_category :
  forall name category text clicked teams teams' msgs,
  session_ok teams ->
  add_skills_category name category text clicked teams = Ok (teams', msgs) ->
  session_ok teams'.
Proof.
intros name category text clicked teams teams' msgs H.
unfold add_skills_category.
destruct clicked; [|now intros [= <- _]].
destruct (truthy text); [|now intros [= <- _]].
destruct (parse_names text) as [|n names]; [now intros [= <- _]|].
destruct (Dict.get name teams) as [T|] eqn:E; [|discriminate].
destruct (Dict.get category (skills T)); [|discriminate].
intros [= <- _]. destruct (session_ok_get _ H E) as [Hn HT].
now apply session_ok_set.
Qed.

Lemma session_ok_add_skills : forall name widgets teams teams' msgs,
  session_ok teams ->
  add_skills name widgets teams = Ok (teams', msgs) ->
  session_ok teams'.
Proof.
intros name widgets teams teams' msgs H. unfold add_skills.
assert (G : forall cats (acc : result (session * list message)),
  (forall p, acc = Ok p -> session_ok (fst p)) ->
  forall p,
  fold_left
    (fun acc category =>
       p <- acc ;;
       q <- add_skills_category name category
              (fst (widgets category)) (snd (widgets category)) (fst p) ;;
       Ok (fst q, (snd p ++ snd q)%list))
    cats acc = Ok p ->
  session_ok (fst p)).
{ induction cats as [|c cats IH]; intros acc Hacc p; simpl.
  - apply Hacc.
  - apply IH. intros p'.
    destruct acc as [[t0 m0]|k|e0 s0]; simpl; [|discriminate|discriminate].
    destruct (add_skills_category name c (fst (widgets c)) (snd (widgets c)) t0)
      as [[t1 m1]|k|e1 s1] eqn:E; simpl; [|discriminate|discriminate].
    intros [= <-]. simpl.
    eapply session_ok_add_skills_category; [apply (Hacc _ eq_refl) | exact E]. }
intros E. change teams' with (fst (teams', msgs)).
eapply G; [|exact E]. intros p [= <-]. exact H.
Qed.

Lemma session_ok_assign : forall slider used name teams teams',
  session_ok teams ->
  (exists msgs, assign_competency slider used name teams = Ok (teams', msgs))
  \/ (exists e, assign_competency slider used name teams = Raised e teams') ->
  session_ok teams'.
Proof.
intros slider used name teams teams' H E.
destruct (Dict.get name teams) as [T|] eqn:G.
- destruct (session_ok_get _ H G) as [Hn HT].
  destruct (assign_competency_state _ _ _ _ G E) as [->| ->]; [exact H|].
  apply session_ok_set; [assumption | assumption|].
  cbn [members]. now apply members_ok_assign_all.
- unfold assign_competency in E. rewrite G in E.
  destruct E as [[msgs E]|[e E]]; discriminate.
Qed.

Lemma session_ok_delete : forall name teams,
  session_ok teams -> session_ok (delete_team name teams).
Proof.
intros name teams (W & F & N). unfold delete_team.
split; [now apply wf_del|]. split; [now apply Forall_del|].
destruct (Dict.mem EmptyString (Dict.del name teams)) eqn:M; [|reflexivity].
apply mem_keys in M. unfold Dict.keys in M. apply in_map_iff in M.
destruct M as [e [Ee He]]. apply In_del in He.
apply not_mem_keys in N. exfalso. apply N. rewrite <- Ee.
unfold Dict.keys. now apply in_map.
Qed.

Lemma reachable_ok : forall teams, reachable teams -> session_ok teams.
Proof.
induction 1.
- split; [constructor|]. split; [constructor | reflexivity].
- now apply session_ok_add_team.
- eapply session_ok_add_members; eassumption.
- eapply session_ok_add_skills; eassumption.
- eapply session_ok_assign; [eassumption|]. left. eauto.
- eapply session_ok_assign; [eassumption|]. right. eauto.
- now apply session_ok_delete.
Qed.

(** No reachable state has a team named by the empty string. *)
Lemma reachable_no_empty_name : forall teams,
  reachable teams -> Dict.mem EmptyString teams = false.
Proof. intros teams R. now destruct (reachable_ok R) as (_ & _ & N). Qed.

Lemma session_ok_wf : forall teams, session_ok teams -> session_wf teams.
Proof.
intros teams (W & F & _). split; [assumption|].
eapply Forall_impl; [|exact F]. intros te [Wm Fm]. split; [assumption|].
eapply Forall_impl; [|exact Fm]. now intros me [Wd _].
Qed.

Lemma session_ok_bounded : forall teams, session_ok teams -> levels_bounded teams.
Proof.
intros teams (_ & F & _). unfold levels_bounded.
eapply Forall_impl; [|exact F]. intros te [_ Fm].
eapply Forall_impl; [|exact Fm]. now intros me [_ B].
Qed.

Lemma level_of_Some : forall ms m s l,
  level_of ms m s = Some l ->
  exists d, Dict.get m ms = Some d /\ Dict.get s d = Some l.
Proof.
intros ms m s l. unfold level_of.
destruct (Dict.get m ms) as [d|]; [|discriminate].
intros H. now exists d.
Qed.

Lemma keys_present : forall (V : Type) (d : Dict.t V) k,
  In k (Dict.keys d) -> exists v, Dict.get k d = Some v.
Proof.
intros V d k H. apply mem_keys in H. unfold Dict.mem in H.
destruct (Dict.get k d) as [v|]; [now exists v | discriminate].
Qed.

Lemma reachable_bounded : forall teams,
  reachable teams ->
  forall t T m d s l,
    In (t, T) teams -> In (m, d) (members T) -> In (s, l) d -> 0 <= l <= 10.
Proof.
intros teams R t T m d s l Ht Hm Hs.
pose proof (session_ok_bounded (reachable_ok R)) as LB.
unfold levels_bounded in LB.
rewrite Forall_forall in LB. specialize (LB _ Ht). simpl in LB.
rewrite Forall_forall in LB. specialize (LB _ Hm). simpl in LB.
rewrite Forall_forall in LB. exact (LB _ Hs).
Qed.

Lemma reachable_one_entry : forall teams,
  reachable teams ->
  forall t T m d, In (t, T) teams -> In (m, d) (members T) -> Dict.wf d.
Proof.
intros teams R t T m d Ht Hm.
destruct (session_ok_wf (reachable_ok R)) as [_ F].
rewrite Forall_forall in F. destruct (F _ Ht) as [_ Fm]. simpl in Fm.
rewrite Forall_forall in Fm. exact (Fm _ Hm).
Qed.

(** C8: in every state the script reaches, the states that a slider's
    exception leaves behind included, every recorded level is between 0 and
    10 (a slider gives no other value) and a member has at most one entry
    per skill; a second store for the same member and skill replaces the
    value of the first and leaves one entry; and when [assign_competency]
    returns twice in a row, every member has for every skill of the team
    exactly one entry, which holds the second value. *)
Theorem levels_within_bounds : forall teams,
  reachable teams ->
  (forall t T m d s l,
     In (t, T) teams -> In (m, d) (members T) -> In (s, l) d -> 0 <= l <= 10)
  /\ (forall t m s l, score teams t m s = Some l -> 0 <= l <= 10)
  /\ (forall t T m d s,
        In (t, T) teams -> In (m, d) (members T) ->
        (count_occ string_dec (Dict.keys d) s <= 1)%nat)
  /\ (forall t T m s v1 v2,
        In (t, T) teams -> In m (Dict.keys (members T)) ->
        exists d,
          Dict.get m (store_level m s v2 (store_level m s v1 (members T)))
          = Some d
          /\ Dict.get s d = Some v2
          /\ count_occ string_dec (Dict.keys d) s = 1%nat)
  /\ (forall slider1 slider2 used1 used2 t T teams1 teams2 msgs1 msgs2,
        Dict.get t teams = Some T ->
        assign_competency slider1 used1 t teams = Ok (teams1, msgs1) ->
        assign_competency slider2 used2 t teams1 = Ok (teams2, msgs2) ->
        reachable teams2
        /\ exists T2,
             Dict.get t teams2 = Some T2
             /\ forall m category sk s,
                  In m (Dict.keys (members T)) ->
                  In (category, sk) (skills T) ->
                  In s sk ->
                  exists d,
                    Dict.get m (members T2) = Some d
                    /\ Dict.get s d = Some (slider2 (slider_key t m s))
                    /\ 0 <= slider2 (slider_key t m s) <= 10
                    /\ count_occ string_dec (Dict.keys d) s = 1%nat).
Proof.
intros teams R.
split; [exact (reachable_bounded R)|]. split; [|split; [|split]].
- intros t m s l. unfold score.
  destruct (Dict.get t teams) as [T|] eqn:Et; [|discriminate].
  intros H. apply level_of_Some in H. destruct H as [d [Em Es]].
  exact (reachable_bounded R _ _ _ _ _ _
           (get_In _ _ Et) (get_In _ _ Em) (get_In _ _ Es)).
- intros t T m d s Ht Hm. apply NoDup_count_occ.
  exact (reachable_one_entry R _ _ _ _ Ht Hm).
- intros t T m s v1 v2 Ht Hm.
  destruct (@keys_present _ (members T) m Hm) as [d0 E0].
  assert (W0 : Dict.wf d0)
    by exact (reachable_one_entry R _ _ _ _ Ht (get_In _ _ E0)).
  exists (Dict.set s v2 (Dict.set s v1 d0)).
  unfold store_level at 2. rewrite E0.
  unfold store_level. rewrite get_set_same.
  split; [apply get_set_same|]. split; [apply get_set_same|].
  apply NoDup_count_occ'; [now apply wf_set, wf_set|].
  apply mem_keys. unfold Dict.mem. now rewrite get_set_same.
- intros slider1 slider2 used1 used2 t T teams1 teams2 msgs1 msgs2 HT E1 E2.
  assert (Reach2 : reachable teams2).
  { eapply reach_assign; [|exact E2]. eapply reach_assign; [exact R|exact E1]. }
  split; [exact Reach2|].
  destruct (assign_competency_ok _ _ _ _ HT E1)
    as [(N & -> & _)|(Hany & _ & -> & _)].
  + destruct (assign_competency_ok _ _ _ _ HT E2)
      as [(_ & -> & _)|(Hany & _)]; [|congruence].
    exists T. split; [exact HT|]. intros m category sk s Hm Hc Hs.
    exfalso.
    assert (X : existsb nonempty (Dict.values (skills T)) = true).
    { apply existsb_exists. exists sk. split.
      - unfold Dict.values. change sk with (snd (category, sk)).
        now apply in_map.
      - destruct sk; [contradiction | reflexivity]. }
    congruence.
  + set (T1 := mkTeam (store_all slider1 t (skills T) (members T)) (skills T))
      in *.
    assert (HT1 : Dict.get t (Dict.set t T1 teams) = Some T1)
      by apply get_set_same.
    destruct (assign_competency_ok _ _ _ _ HT1 E2)
      as [(N & _)|(_ & _ & -> & _)]; [cbn [skills T1] in N; congruence|].
    set (T2 := mkTeam (store_all slider2 t (skills T1) (members T1))
                 (skills T1)) in *.
    exists T2. split; [apply get_set_same|].
    intros m category sk s Hm Hc Hs.
    destruct (store_all_spec slider1 t (skills T) (members T) m s) as [K1 _].
    destruct (store_all_spec slider2 t (skills T1) (members T1) m s)
      as [_ L2].
    assert (M : Dict.mem m (members T1) = true).
    { apply mem_keys. simpl. rewrite K1. exact Hm. }
    assert (X : existsb (fun cat => str_in s (snd cat)) (skills T1) = true).
    { apply existsb_exists. exists (category, sk). split; [exact Hc|].
      now apply str_in_In. }
    rewrite M, X in L2. simpl in L2.
    change (level_of (members T2) m s = Some (slider2 (slider_key t m s)))
      in L2.
    destruct (level_of_Some _ _ _ L2) as [d [Em Es]].
    assert (In2 : In (t, T2) (Dict.set t T2 (Dict.set t T1 teams)))
      by (apply get_In, get_set_same).
    exists d. split; [exact Em|]. split; [exact Es|]. split.
    * exact (reachable_bounded Reach2 _ _ _ _ _ _
               In2 (get_In _ _ Em) (get_In _ _ Es)).
    * apply NoDup_count_occ';
        [exact (reachable_one_entry Reach2 _ _ _ _ In2 (get_In _ _ Em))|].
      apply get_In in Es. unfold Dict.keys.
      change s with (fst (s, slider2 (slider_key t m s))). now apply in_map.
Qed.

Lemma demo_reachable : reachable demo_teams.
Proof.
eapply reach_assign with (slider := demo_slider) (used := [])
  (name := "Alpha").
- eapply reach_add_members with (name := "Alpha") (text := "Ana, Ben")
    (clicked := true).
  + exact (reach_add_team "Alpha" true reach_init).
  + reflexivity.
- vm_compute. reflexivity.
Qed.

Lemma levels_within_bounds_witness :
  score demo_teams "Alpha" "Ana" "Python" = Some 7 /\ 0 <= 7 <= 10
  /\ exists T2 d,
       Dict.get "Alpha" demo_teams = Some T2
       /\ Dict.get "Ana" (members T2) = Some d
       /\ Dict.get "Python" d = Some 7
       /\ count_occ string_dec (Dict.keys d) "Python" = 1%nat.
Proof.
split; [reflexivity|]. split.
- exact (proj1 (proj2 (levels_within_bounds demo_reachable))
           "Alpha" "Ana" "Python" 7 eq_refl).
- destruct (proj2 (proj2 (proj2 (proj2
              (levels_within_bounds
                 (reach_add_members "Alpha" "Ana, Ben" true
                    (reach_add_team "Alpha" true reach_init) eq_refl)))))
              demo_slider demo_slider [] [] "Alpha"
              (mkTeam [("Ana", []); ("Ben", [])] DEFAULT_SKILLS)
              demo_teams demo_teams [] [] eq_refl eq_refl eq_refl)
    as (_ & T2 & G & H).
  destruct (H "Ana" "Technical"
              ["Databricks"; "Python"; "NodeJS"; "SQL"; "Gitlab"] "Python")
    as (d & G1 & G2 & _ & G4); [simpl; auto|simpl; auto|simpl; auto|].
  exists T2, d. repeat split; assumption.
Defined.

(** * Export *)

Lemma export_In : forall teams t m s l,
  In (mkRow t m s l) (export_data teams)
  <-> exists T d, In (t, T) teams /\ In (m, d) (members T) /\ In (s, l) d.
Proof.
intros teams t m s l. unfold export_data, team_rows, member_rows.
rewrite in_flat_map. split.
- intros [[t0 T] [Ht H]]. simpl in H. apply in_flat_map in H.
  destruct H as [[m0 d] [Hm H]]. simpl in H. apply in_map_iff in H.
  destruct H as [[s0 l0] [E Hs]]. simpl in E. injection E as -> -> -> ->.
  now exists T, d.
- intros (T & d & Ht & Hm & Hs). exists (t, T). split; [assumption|].
  simpl. apply in_flat_map. exists (m, d). split; [assumption|].
  simpl. apply in_map_iff. now exists (s, l).
Qed.

Lemma score_In : forall teams t m s l,
  session_wf teams ->
  (score teams t m s = Some l
   <-> exists T d, In (t, T) teams /\ In (m, d) (members T) /\ In (s, l) d).
Proof.
intros teams t m s l [W F]. rewrite Forall_forall in F. split.
- unfold score. destruct (Dict.get t teams) as [T|] eqn:Et; [|discriminate].
  intros H. apply level_of_Some in H. destruct H as [d [Em Es]].
  exists T, d. auto using get_In.
- intros (T & d & Ht & Hm & Hs).
  destruct (F _ Ht) as [Wm Fm]. simpl in Wm, Fm.
  rewrite Forall_forall in Fm. specialize (Fm _ Hm). simpl in Fm.
  unfold score, level_of.
  rewrite (@In_get _ teams t T W Ht), (@In_get _ (members T) m d Wm Hm).
  now apply In_get.
Qed.

Lemma NoDup_flat_map_tagged :
  forall (A B K N : Type) (name : A -> N) (key : B -> K) (tag : K -> N)
         (f : A -> list B) (l : list A),
  NoDup (map name l) ->
  (forall a, In a l -> NoDup (map key (f a))) ->
  (forall a b, In a l -> In b (f a) -> tag (key b) = name a) ->
  NoDup (map key (flat_map f l)).
Proof.
intros A B K N name key tag f.
induction l as [|a l IH]; intros Hn Hk Ht; simpl.
- constructor.
- inversion Hn as [|? ? Hnot Hl]; subst. rewrite map_app.
  apply NoDup_app.
  + apply Hk. now left.
  + apply IH; [assumption | |].
    * intros a' Ha'. apply Hk. now right.
    * intros a' b Ha'. apply Ht. now right.
  + intros k H1 H2. apply in_map_iff in H1. destruct H1 as [b [<- Hb]].
    apply in_map_iff in H2. destruct H2 as [b' [E Hb']].
    apply in_flat_map in Hb'. destruct Hb' as [a' [Ha' Hb']].
    apply Hnot. apply in_map_iff. exists a'. split; [|assumption].
    rewrite <- (Ht a' b' (or_intror Ha') Hb'), E.
    apply Ht; [now left | assumption].
Qed.

Lemma member_rows_keys : forall t me,
  Dict.wf (snd me) -> NoDup (map row_key (member_rows t me)).
Proof.
intros t [m d]. unfold member_rows, Dict.wf, Dict.keys. simpl.
induction d as [|[s l] d IH]; intros H; simpl.
- constructor.
- inversion H as [|? ? Hnot Hd]; subst. constructor; [|now apply IH].
  intros Hin. apply Hnot. apply in_map_iff in Hin.
  destruct Hin as [r [E Hr]]. apply in_map_iff in Hr.
  destruct Hr as [[s' l'] [<- Hs']]. unfold row_key in E. simpl in E.
  injection E as <-. change s' with (fst (s', l')). now apply in_map.
Qed.

Lemma export_keys : forall teams,
  session_wf teams -> NoDup (map row_key (export_data teams)).
Proof.
intros teams [W F]. rewrite Forall_forall in F. unfold export_data.
apply NoDup_flat_map_tagged
  with (name := fst) (tag := fun k : string * string * string => fst (fst k)).
- exact W.
- intros [t T] Ht. destruct (F _ Ht) as [Wm Fm]. simpl in Wm, Fm.
  rewrite Forall_forall in Fm. unfold team_rows. simpl.
  apply NoDup_flat_map_tagged
    with (name := fst) (tag := fun k : string * string * string => snd (fst k)).
  + exact Wm.
  + intros me Hme. apply member_rows_keys. now apply Fm.
  + intros me r _ Hr. unfold member_rows in Hr. apply in_map_iff in Hr.
    destruct Hr as [se [<- _]]. reflexivity.
- intros [t T] r _ Hr. unfold team_rows in Hr. apply in_flat_map in Hr.
  destruct Hr as [me [_ Hr]]. unfold member_rows in Hr. apply in_map_iff in Hr.
  destruct Hr as [se [<- _]]. reflexivity.
Qed.

Lemma regrouped_row : forall acc r t m s,
  regrouped (regroup_row acc r) t m s
  = if String.eqb t (Team r) && String.eqb m (Member r)
       && String.eqb s (RowSkill r)
    then Some (Competency_Level r)
    else regrouped acc t m s.
Proof.
intros acc [T M S L] t m s. unfold regrouped, regroup_row, level_of. simpl.
rewrite get_set. destruct (String.eqb_spec t T) as [->|Nt]; simpl; [|reflexivity].
rewrite get_set. destruct (String.eqb_spec m M) as [->|Nm]; simpl.
- rewrite get_set. destruct (String.eqb_spec s S) as [->|Ns]; [reflexivity|].
  destruct (Dict.get T acc) as [tm|]; [|reflexivity].
  destruct (Dict.get M tm); reflexivity.
- destruct (Dict.get T acc) as [tm|]; reflexivity.
Qed.

Lemma regrouped_rows : forall rows t m s l,
  NoDup (map row_key rows) ->
  (regrouped (regroup rows) t m s = Some l <-> In (mkRow t m s l) rows).
Proof.
unfold regroup.
induction rows as [|r rows IH] using rev_ind; intros t m s l H.
- simpl. split; [discriminate | tauto].
- rewrite fold_left_app. simpl. rewrite regrouped_row.
  rewrite map_app in H. simpl in H.
  assert (Hrows : NoDup (map row_key rows)) by (now apply NoDup_app_remove_r in H).
  assert (Hnew : ~ In (row_key r) (map row_key rows)).
  { apply NoDup_remove_2 in H. rewrite app_nil_r in H. exact H. }
  rewrite in_app_iff.
  destruct (String.eqb_spec t (Team r)) as [Et|Nt]; simpl.
  + destruct (String.eqb_spec m (Member r)) as [Em|Nm]; simpl.
    * destruct (String.eqb_spec s (RowSkill r)) as [Es|Ns].
      -- subst. split.
         ++ intros [= <-]. right. left. now destruct r.
         ++ intros [Hin|[E|[]]].
            ** exfalso. apply Hnew.
               change (row_key r)
                 with (row_key (mkRow (Team r) (Member r) (RowSkill r) l)).
               now apply in_map.
            ** now rewrite E.
      -- rewrite (IH _ _ _ _ Hrows). split; [tauto|].
         intros [Hin|[E|[]]]; [assumption|]. subst r. now contradiction Ns.
    * rewrite (IH _ _ _ _ Hrows). split; [tauto|].
      intros [Hin|[E|[]]]; [assumption|]. subst r. now contradiction Nm.
  + rewrite (IH _ _ _ _ Hrows). split; [tauto|].
    intros [Hin|[E|[]]]; [assumption|]. subst r. now contradiction Nt.
Qed.

(** C9: in a state whose dictionaries have distinct keys, the export holds a
    row for a team, a member, a skill and a level exactly when that level is
    recorded for them, and no two rows for the same team, member and skill;
    grouping the rows again gives back the score mapping; and the rows come
    team after team, within a team member after member, and for a member in
    the order of the member's recorded skills. *)
Theorem export_round_trip : forall teams,
  session_wf teams ->
  (forall t m s l,
     In (mkRow t m s l) (export_data teams) <-> score teams t m s = Some l)
  /\ NoDup (map row_key (export_data teams))
  /\ (forall t m s,
        regrouped (regroup (export_data teams)) t m s = score teams t m s)
  /\ (forall teams1 teams2 : session,
        export_data (teams1 ++ teams2)%list
        = (export_data teams1 ++ export_data teams2)%list)
  /\ (forall t ms1 ms2 sk,
        export_data [(t, mkTeam (ms1 ++ ms2)%list sk)]
        = (export_data [(t, mkTeam ms1 sk)]
           ++ export_data [(t, mkTeam ms2 sk)])%list)
  /\ (forall t m d sk,
        export_data [(t, mkTeam [(m, d)] sk)]
        = map (fun se => mkRow t m (fst se) (snd se)) d).
Proof.
intros teams W.
assert (I : forall t m s l,
  In (mkRow t m s l) (export_data teams) <-> score teams t m s = Some l).
{ intros t m s l. rewrite export_In. symmetry. now apply score_In. }
split; [exact I|]. split; [now apply export_keys|]. split; [|split; [|split]].
- intros t m s.
  destruct (score teams t m s) as [l|] eqn:E.
  + apply regrouped_rows; [now apply export_keys | now apply I].
  + destruct (regrouped (regroup (export_data teams)) t m s) as [l|] eqn:E';
      [|reflexivity].
    apply regrouped_rows in E'; [|now apply export_keys].
    apply I in E'. congruence.
- intros teams1 teams2. unfold export_data. apply flat_map_app.
- intros t ms1 ms2 sk. unfold export_data, team_rows. simpl.
  now rewrite !app_nil_r, flat_map_app.
- intros t m d sk. unfold export_data, team_rows, member_rows. simpl.
  now rewrite !app_nil_r.
Qed.

Lemma export_round_trip_witness :
  regrouped (regroup (export_data demo_teams)) "Alpha" "Ana" "Python"
  = score demo_teams "Alpha" "Ana" "Python"
  /\ NoDup (map row_key (export_data demo_teams)).
Proof.
pose proof (export_round_trip (session_ok_wf (reachable_ok demo_reachable))) as H.
split; [exact (proj1 (proj2 (proj2 H)) "Alpha" "Ana" "Python")
       | exact (proj1 (proj2 H))].
Defined.

(** * More on parsing names *)

Lemma split_all_chars : forall (P : ascii -> bool) sep s,
  all_chars (fun c => P c || Ascii.eqb c sep) s = true ->
  Forall (fun piece => all_chars P piece = true) (split sep s).
Proof.
intros P sep. induction s as [|c r IH]; intros H.
- constructor; [reflexivity | constructor].
- cbn [all_chars] in H. apply andb_true_iff in H. destruct H as [Hc Hr].
  specialize (IH Hr). cbn [split].
  destruct (Ascii.eqb c sep) eqn:E.
  + constructor; [reflexivity | assumption].
  + rewrite orb_false_r in Hc.
    destruct (split sep r) as [|h t].
    * constructor; [|constructor]. cbn [all_chars]. now rewrite Hc.
    * inversion IH as [|? ? Hh Ht]; subst. constructor; [|assumption].
      cbn [all_chars]. now rewrite Hc, Hh.
Qed.

Lemma all_chars_weaken : forall (P Q : ascii -> bool) s,
  (forall c, P c = true -> Q c = true) ->
  all_chars P s = true -> all_chars Q s = true.
Proof.
intros P Q s PQ. induction s as [|c r IH]; intros H; [reflexivity|].
cbn [all_chars] in *. apply andb_true_iff in H. destruct H as [Hc Hr].
now rewrite (PQ _ Hc), IH.
Qed.

Lemma lstrip_all_chars : forall P s,
  all_chars P s = true -> all_chars P (lstrip s) = true.
Proof.
intros P. induction s as [|c r IH]; intros H; [reflexivity|].
cbn [lstrip]. destruct (is_space c); [|exact H].
cbn [all_chars] in H. apply andb_true_iff in H. now apply IH.
Qed.

Lemma rstrip_all_chars : forall P s,
  all_chars P s = true -> all_chars P (rstrip s) = true.
Proof.
intros P. induction s as [|c r IH]; intros H; [reflexivity|].
cbn [all_chars] in H. apply andb_true_iff in H. destruct H as [Hc Hr].
specialize (IH Hr). cbn [rstrip].
destruct (rstrip r) as [|c' r'].
- destruct (is_space c); [reflexivity|]. cbn [all_chars]. now rewrite Hc.
- cbn [all_chars] in *. now rewrite Hc, IH.
Qed.

Lemma strip_all_chars : forall P s,
  all_chars P s = true -> all_chars P (strip s) = true.
Proof. intros P s H. unfold strip. now apply rstrip_all_chars, lstrip_all_chars. Qed.

Lemma lstrip_head : forall s,
  lstrip s = EmptyString
  \/ exists c r, lstrip s = String c r /\ is_space c = false.
Proof.
induction s as [|c r IH]; [now left|].
cbn [lstrip]. destruct (is_space c) eqn:E; [exact IH|].
right. now exists c, r.
Qed.

Lemma rstrip_head : forall c r,
  is_space c = false -> exists r', rstrip (String c r) = String c r'.
Proof.
intros c r H. cbn [rstrip]. destruct (rstrip r) as [|c' r'].
- rewrite H. now exists EmptyString.
- now exists (String c' r').
Qed.

Lemma rstrip_cons : forall c r,
  rstrip (String c r)
  = match rstrip r with
    | EmptyString => if is_space c then EmptyString else String c EmptyString
    | String c' r' => String c (String c' r')
    end.
Proof. reflexivity. Qed.

Lemma rstrip_idem : forall s, rstrip (rstrip s) = rstrip s.
Proof.
induction s as [|c r IH]; [reflexivity|].
rewrite rstrip_cons. destruct (rstrip r) as [|c' r'] eqn:E.
- destruct (is_space c) eqn:S; [reflexivity|].
  rewrite rstrip_cons. cbn [rstrip]. now rewrite S.
- rewrite rstrip_cons, IH. reflexivity.
Qed.

Lemma strip_idem : forall s, strip (strip s) = strip s.
Proof.
intros s. unfold strip.
destruct (lstrip_head s) as [E|(c & r & E & S)]; rewrite E.
- reflexivity.
- destruct (@rstrip_head c r S) as [r' E']. rewrite E'.
  cbn [lstrip]. rewrite S. rewrite <- E'. apply rstrip_idem.
Qed.

Lemma replace_no_char : forall a b s,
  Ascii.eqb b a = false -> no_char a (replace a b s) = true.
Proof.
intros a b s N. unfold no_char.
induction s as [|c r IH]; [reflexivity|].
cbn [replace all_chars]. rewrite IH, andb_true_r.
destruct (Ascii.eqb c a) eqn:E; [now rewrite N | now rewrite E].
Qed.

(** X1: every name read from a text box is clean: it is not empty, has no
    white space at either end, and holds no comma and no line feed. *)
Theorem parse_names_clean : forall text, Forall clean_name (parse_names text).
Proof.
intros text. unfold parse_names.
set (t := replace "010" "," text).
assert (Hnl : Forall (fun p => no_char "010" p = true) (split "," t)).
{ apply split_all_chars. eapply all_chars_weaken;
    [|apply (@replace_no_char "010" "," text eq_refl)].
  intros c H. now rewrite H. }
assert (Hco : Forall (fun p => no_char "," p = true) (split "," t)).
{ apply split_all_chars. clear. induction t as [|c r IH]; [reflexivity|].
  cbn [all_chars]. rewrite IH. now destruct (Ascii.eqb c ","). }
rewrite Forall_forall in Hnl, Hco. apply Forall_forall.
intros n Hn. apply in_map_iff in Hn. destruct Hn as [p [<- Hp]].
apply filter_In in Hp. destruct Hp as [Hp Ht].
repeat split.
- exact Ht.
- apply strip_idem.
- apply strip_all_chars. now apply Hco.
- apply strip_all_chars. now apply Hnl.
Qed.

Lemma all_chars_append : forall P a b,
  all_chars P (a ++ b) = all_chars P a && all_chars P b.
Proof.
intros P a b. induction a as [|c r IH]; [reflexivity|].
cbn [append all_chars]. now rewrite IH, andb_assoc.
Qed.

Lemma replace_id : forall a b s, no_char a s = true -> replace a b s = s.
Proof.
intros a b. unfold no_char. induction s as [|c r IH]; intros H; [reflexivity|].
cbn [all_chars] in H. apply andb_true_iff in H. destruct H as [Hc Hr].
apply negb_true_iff in Hc. cbn [replace]. now rewrite Hc, IH.
Qed.

Lemma split_append_sep : forall sep a r,
  no_char sep a = true -> split sep (a ++ String sep r) = a :: split sep r.
Proof.
intros sep a r. unfold no_char. induction a as [|c a IH]; intros H.
- cbn [append split]. now rewrite Ascii.eqb_refl.
- cbn [all_chars] in H. apply andb_true_iff in H. destruct H as [Hc Ha].
  apply negb_true_iff in Hc. cbn [append split]. now rewrite Hc, IH.
Qed.

Lemma split_no_sep : forall sep a, no_char sep a = true -> split sep a = [a].
Proof.
intros sep. unfold no_char. induction a as [|c a IH]; intros H; [reflexivity|].
cbn [all_chars] in H. apply andb_true_iff in H. destruct H as [Hc Ha].
apply negb_true_iff in Hc. cbn [split]. now rewrite Hc, IH.
Qed.

Lemma split_not_nil : forall sep s, split sep s <> [].
Proof.
intros sep s. destruct s as [|c r]; cbn [split]; [discriminate|].
destruct (Ascii.eqb c sep); [discriminate|].
destruct (split sep r); discriminate.
Qed.

Lemma keep_names_clean : forall x l,
  clean_name x -> keep_names (x :: l) = x :: keep_names l.
Proof.
intros x l (T & S & _). unfold keep_names. cbn [filter].
rewrite S, T. cbn [map]. now rewrite S.
Qed.

Lemma keep_names_space : forall h t,
  keep_names (String " " h :: t) = keep_names (h :: t).
Proof.
intros h t. unfold keep_names. cbn [filter].
assert (E : strip (String " " h) = strip h) by reflexivity.
rewrite E. destruct (truthy (strip h)); [|reflexivity].
cbn [map]. now rewrite E.
Qed.

Lemma keep_split_concat : forall l x,
  clean_name x -> Forall clean_name l ->
  keep_names (split "," (String.concat ", " (x :: l))) = x :: l.
Proof.
induction l as [|y l IH]; intros x Hx Hl.
- cbn [String.concat]. destruct Hx as (T & S & C & N).
  rewrite (split_no_sep _ _ C). unfold keep_names. cbn [filter].
  rewrite S, T. cbn [map]. now rewrite S.
- inversion Hl as [|? ? Hy Hl']; subst.
  change (String.concat ", " (x :: y :: l))
    with (x ++ String "," (String " " (String.concat ", " (y :: l)))).
  rewrite split_append_sep by apply Hx.
  rewrite keep_names_clean by exact Hx. f_equal.
  specialize (IH y Hy Hl').
  change (split "," (String " " (String.concat ", " (y :: l))))
    with (match split "," (String.concat ", " (y :: l)) with
          | [] => [String " " EmptyString]
          | h :: t => String " " h :: t
          end).
  destruct (split "," (String.concat ", " (y :: l))) as [|h t] eqn:E.
  + now apply split_not_nil in E.
  + now rewrite keep_names_space.
Qed.

Lemma concat_no_newline : forall l,
  Forall clean_name l -> no_char "010" (String.concat ", " l) = true.
Proof.
induction l as [|x l IH]; intros H; [reflexivity|].
inversion H as [|? ? Hx Hl]; subst. destruct Hx as (_ & _ & _ & N).
destruct l as [|y l]; [exact N|].
change (String.concat ", " (x :: y :: l))
  with (x ++ String "," (String " " (String.concat ", " (y :: l)))).
unfold no_char in *. rewrite all_chars_append, N. cbn [all_chars andb].
cbn. apply (IH Hl).
Qed.

(** X2: names that are clean come back as they are when the text that the
    success message shows (the names joined by a comma and a space) is
    parsed again. *)
Theorem parse_join_round_trip : forall names,
  Forall clean_name names -> parse_names (join ", " names) = names.
Proof.
intros names H. unfold parse_names, join.
rewrite replace_id by now apply concat_no_newline.
destruct names as [|x l]; [reflexivity|].
inversion H; subst. now apply keep_split_concat.
Qed.

Lemma parse_join_round_trip_witness :
  parse_names (join ", " ["Ana"; "Ben Li"]) = ["Ana"; "Ben Li"].
Proof.
apply parse_join_round_trip.
repeat constructor.
Defined.

(** * The shape of reachable teams *)

Lemma fold_add_skill_prefix : forall names l,
  exists extra,
    fold_left add_skill names l = (l ++ extra)%list /\ incl extra names.
Proof.
induction names as [|n names IH]; intros l; cbn [fold_left].
- exists []. split; [now rewrite app_nil_r | apply incl_refl].
- destruct (IH (add_skill l n)) as [extra [E I]]. rewrite E.
  unfold add_skill. destruct (truthy n && negb (str_in n l)).
  + exists (n :: extra). split; [now rewrite <- app_assoc|].
    intros x [<-|Hx]; [now left | right; now apply I].
  + exists extra. split; [reflexivity | now apply incl_tl].
Qed.

Lemma fold_add_skill_NoDup : forall names l,
  NoDup l -> NoDup (fold_left add_skill names l).
Proof.
induction names as [|n names IH]; intros l H; cbn [fold_left]; [assumption|].
apply IH. unfold add_skill.
destruct (truthy n && negb (str_in n l)) eqn:C; [|assumption].
apply andb_true_iff in C. destruct C as [_ C]. apply negb_true_iff in C.
apply NoDup_app; [assumption | constructor; [simpl; tauto | constructor] |].
intros x Hx [<-|[]].
apply str_in_In in Hx. congruence.
Qed.

Lemma fold_add_skill_In : forall names l n,
  In n names -> truthy n = true -> In n (fold_left add_skill names l).
Proof.
induction names as [|x names IH]; intros l n Hn Ht; [contradiction|].
cbn [fold_left]. destruct Hn as [->|Hn]; [|now apply IH].
destruct (fold_add_skill_prefix names (add_skill l n)) as [extra [E _]].
rewrite E. apply in_or_app. left. unfold add_skill. rewrite Ht. simpl.
destruct (str_in n l) eqn:S; simpl.
- now apply str_in_In.
- apply in_or_app. right. now left.
Qed.

Lemma category_ok_add_skills : forall c l names,
  Forall clean_name names ->
  category_ok (c, l) -> category_ok (c, fold_left add_skill names l).
Proof.
intros c l names Hn (N & C & [e E]). simpl in *.
destruct (fold_add_skill_prefix names l) as [extra [Ex I]].
split; [|split]; simpl.
- now apply fold_add_skill_NoDup.
- rewrite Ex. apply Forall_app. split; [assumption|].
  rewrite Forall_forall in *. intros x Hx. apply Hn, I, Hx.
- exists (e ++ extra)%list. now rewrite Ex, E, app_assoc.
Qed.

Lemma new_team_shape : team_shape new_team.
Proof.
split; [constructor|]. split; [reflexivity|].
repeat constructor; simpl;
  try (intros H; repeat (destruct H as [H|H]; [discriminate H|]); exact H);
  try (exists []; reflexivity).
Qed.

Lemma keys_add_members_clean : forall names ms,
  Forall clean_name names ->
  Forall clean_name (Dict.keys ms) ->
  Forall clean_name (Dict.keys (fold_left add_member names ms)).
Proof.
intros names ms Hn Hm.
destruct (fold_add_member_app names ms) as [added [E I]]. rewrite E.
unfold Dict.keys. rewrite map_app. apply Forall_app. split; [exact Hm|].
rewrite map_map. simpl. rewrite map_id.
rewrite Forall_forall in *. intros x Hx. apply Hn, I, Hx.
Qed.

Lemma session_shape_get : forall teams t T,
  session_shape teams -> Dict.get t teams = Some T -> team_shape T.
Proof.
intros teams t T H E. unfold session_shape in H.
rewrite Forall_forall in H. exact (H _ (get_In _ _ E)).
Qed.

Lemma shape_add_team : forall name clicked teams,
  session_shape teams -> session_shape (fst (add_team name clicked teams)).
Proof.
intros name clicked teams H. unfold add_team.
destruct clicked; [|assumption].
destruct (truthy name && negb (Dict.mem name teams)).
- simpl. apply Forall_set; [assumption | apply new_team_shape].
- destruct (Dict.mem name teams); assumption.
Qed.

Lemma shape_add_members : forall name text clicked teams teams' msgs,
  session_shape teams ->
  add_members name text clicked teams = Ok (teams', msgs) ->
  session_shape teams'.
Proof.
intros name text clicked teams teams' msgs H. unfold add_members.
destruct clicked; [|now intros [= <- _]].
destruct (truthy text); [|now intros [= <- _]].
pose proof (parse_names_clean text) as Hc.
destruct (parse_names text) as [|n names]; [now intros [= <- _]|].
destruct (Dict.get name teams) as [T|] eqn:E; [|discriminate].
intros [= <- _]. destruct (session_shape_get _ H E) as (M & K & F).
apply Forall_set; [assumption|].
split; [|split]; [|exact K|exact F].
cbn [snd members]. now apply (@keys_add_members_clean (n :: names)).
Qed.

Lemma shape_add_skills_category :
  forall name category text clicked teams teams' msgs,
  session_shape teams ->
  add_skills_category name category text clicked teams = Ok (teams', msgs) ->
  session_shape teams'.
Proof.
intros name category text clicked teams teams' msgs H.
unfold add_skills_category.
destruct clicked; [|now intros [= <- _]].
destruct (truthy text); [|now intros [= <- _]].
pose proof (parse_names_clean text) as Hc.
destruct (parse_names text) as [|n names]; [now intros [= <- _]|].
destruct (Dict.get name teams) as [T|] eqn:E; [|discriminate].
destruct (Dict.get category (skills T)) as [l|] eqn:El; [|discriminate].
intros [= <- _]. destruct (session_shape_get _ H E) as (M & K & F).
apply Forall_set; [assumption|]. split; [|split]; simpl.
- assumption.
- rewrite keys_set_present; [assumption|]. unfold Dict.mem. now rewrite El.
- apply Forall_set; [assumption|].
  apply (@category_ok_add_skills category l (n :: names)); [assumption|].
  rewrite Forall_forall in F. exact (F _ (get_In _ _ El)).
Qed.

Lemma shape_add_skills : forall name widgets teams teams' msgs,
  session_shape teams ->
  add_skills name widgets teams = Ok (teams', msgs) ->
  session_shape teams'.
Proof.
intros name widgets teams teams' msgs H. unfold add_skills.
assert (G : forall cats (acc : result (session * list message)),
  (forall p, acc = Ok p -> session_shape (fst p)) ->
  forall p,
  fold_left
    (fun acc category =>
       p <- acc ;;
       q <- add_skills_category name category
              (fst (widgets category)) (snd (widgets category)) (fst p) ;;
       Ok (fst q, (snd p ++ snd q)%list))
    cats acc = Ok p ->
  session_shape (fst p)).
{ induction cats as [|c cats IH]; intros acc Hacc p; simpl.
  - apply Hacc.
  - apply IH. intros p'.
    destruct acc as [[t0 m0]|k|e0 s0]; simpl; [|discriminate|discriminate].
    destruct (add_skills_category name c (fst (widgets c)) (snd (widgets c)) t0)
      as [[t1 m1]|k|e1 s1] eqn:E; simpl; [|discriminate|discriminate].
    intros [= <-]. simpl.
    eapply shape_add_skills_category; [apply (Hacc _ eq_refl) | exact E]. }
intros E. change teams' with (fst (teams', msgs)).
eapply G; [|exact E]. intros p [= <-]. exact H.
Qed.

Lemma shape_assign : forall slider used name teams teams',
  session_shape teams ->
  (exists msgs, assign_competency slider used name teams = Ok (teams', msgs))
  \/ (exists e, assign_competency slider used name teams = Raised e teams') ->
  session_shape teams'.
Proof.
intros slider used name teams teams' H E.
destruct (Dict.get name teams) as [T|] eqn:G.
- destruct (session_shape_get _ H G) as (M & K & F).
  destruct (assign_competency_state _ _ _ _ G E) as [->| ->]; [exact H|].
  apply Forall_set; [assumption|].
  split; [|split]; simpl; try assumption.
  now rewrite assign_all_keys.
- unfold assign_competency in E. rewrite G in E.
  destruct E as [[msgs E]|[e E]]; discriminate.
Qed.

Lemma reachable_shape : forall teams, reachable teams -> session_shape teams.
Proof.
induction 1.
- constructor.
- now apply shape_add_team.
- eapply shape_add_members; eassumption.
- eapply shape_add_skills; eassumption.
- eapply shape_assign; [eassumption|]. left. eauto.
- eapply shape_assign; [eassumption|]. right. eauto.
- unfold delete_team. now apply Forall_del.
Qed.

(** * What the operations return on a team of the state *)

Lemma set_same_team : forall teams t T,
  Dict.get t teams = Some T ->
  Dict.set t (mkTeam (members T) (skills T)) teams = teams.
Proof. intros teams t [ms sk] H. simpl. now apply set_get_id. Qed.

Lemma add_members_result : forall t text clicked teams T,
  Dict.get t teams = Some T ->
  exists msgs,
    add_members t text clicked teams
    = Ok (Dict.set t
            (mkTeam (fold_left add_member (submitted clicked text) (members T))
               (skills T))
            teams,
          msgs).
Proof.
intros t text clicked teams T H. unfold add_members, submitted.
destruct clicked; simpl; [|rewrite (@set_same_team teams t T H); eauto].
destruct (truthy text); simpl; [|rewrite (@set_same_team teams t T H); eauto].
destruct (parse_names text) as [|n names];
  [simpl; rewrite (@set_same_team teams t T H); eauto|].
rewrite H. eauto.
Qed.

Lemma add_skills_category_step : forall t c text clicked teams T l,
  Dict.get t teams = Some T ->
  Dict.get c (skills T) = Some l ->
  exists teams' msgs T',
    add_skills_category t c text clicked teams = Ok (teams', msgs)
    /\ Dict.get t teams' = Some T'
    /\ members T' = members T
    /\ Dict.keys (skills T') = Dict.keys (skills T)
    /\ Dict.get c (skills T')
       = Some (fold_left add_skill (submitted clicked text) l)
    /\ (forall c', c' <> c -> Dict.get c' (skills T') = Dict.get c' (skills T))
    /\ (forall o, o <> t -> Dict.get o teams' = Dict.get o teams)
    /\ Dict.keys teams' = Dict.keys teams.
Proof.
intros t c text clicked teams T l HT Hl.
assert (Same : submitted clicked text = [] ->
  forall msgs : list message,
  exists teams' msgs' T',
    Ok (teams, msgs) = Ok (teams', msgs')
    /\ Dict.get t teams' = Some T'
    /\ members T' = members T
    /\ Dict.keys (skills T') = Dict.keys (skills T)
    /\ Dict.get c (skills T')
       = Some (fold_left add_skill (submitted clicked text) l)
    /\ (forall c', c' <> c -> Dict.get c' (skills T') = Dict.get c' (skills T))
    /\ (forall o, o <> t -> Dict.get o teams' = Dict.get o teams)
    /\ Dict.keys teams' = Dict.keys teams).
{ intros E msgs. exists teams, msgs, T. rewrite E. simpl. repeat split; auto. }
unfold add_skills_category.
destruct clicked; [|now apply Same].
destruct (truthy text) eqn:Tt; [|apply Same; unfold submitted; now rewrite Tt].
destruct (parse_names text) as [|n names] eqn:P;
  [apply Same; unfold submitted; now rewrite Tt, P|].
rewrite HT, Hl. eexists _, _, _. split; [reflexivity|].
split; [apply get_set_same|]. cbn [members skills].
split; [reflexivity|].
split; [apply keys_set_present; unfold Dict.mem; now rewrite Hl|].
split; [unfold submitted; rewrite Tt, P; apply get_set_same|].
split; [intros c' Hc'; now apply get_set_other|].
split; [intros o Ho; now apply get_set_other|].
apply keys_set_present. unfold Dict.mem. now rewrite HT.
Qed.



Lemma keys_get : forall (V : Type) (d : Dict.t V) k,
  In k (Dict.keys d) -> exists v, Dict.get k d = Some v.
Proof.
intros V d k H. apply mem_keys in H. unfold Dict.mem in H.
destruct (Dict.get k d) as [v|]; [now exists v | discriminate].
Qed.

Lemma add_skills_result : forall t widgets teams T,
  Dict.get t teams = Some T ->
  Dict.keys (skills T) = CATEGORIES ->
  exists teams' msgs T',
    add_skills t widgets teams = Ok (teams', msgs)
    /\ Dict.get t teams' = Some T'
    /\ members T' = members T
    /\ Dict.keys (skills T') = CATEGORIES
    /\ (forall c l, In c CATEGORIES -> Dict.get c (skills T) = Some l ->
          Dict.get c (skills T')
          = Some (fold_left add_skill
                    (submitted (snd (widgets c)) (fst (widgets c))) l))
    /\ (forall o, o <> t -> Dict.get o teams' = Dict.get o teams)
    /\ Dict.keys teams' = Dict.keys teams.
Proof.
intros t widgets teams T HT HK.
destruct (@keys_get _ (skills T) "Technical") as [l1 G1];
  [rewrite HK; simpl; auto|].
destruct (@keys_get _ (skills T) "Domain") as [l2 G2];
  [rewrite HK; simpl; auto|].
destruct (@keys_get _ (skills T) "Operational") as [l3 G3];
  [rewrite HK; simpl; auto|].
destruct (@add_skills_category_step t "Technical"
            (fst (widgets "Technical")) (snd (widgets "Technical"))
            teams T l1 HT G1)
  as (teams1 & msgs1 & T1 & E1 & HT1 & M1 & K1 & C1 & O1 & F1 & D1).
assert (G2' : Dict.get "Domain" (skills T1) = Some l2)
  by (rewrite O1; [exact G2 | discriminate]).
destruct (@add_skills_category_step t "Domain"
            (fst (widgets "Domain")) (snd (widgets "Domain"))
            teams1 T1 l2 HT1 G2')
  as (teams2 & msgs2 & T2 & E2 & HT2 & M2 & K2 & C2 & O2 & F2 & D2).
assert (G3' : Dict.get "Operational" (skills T2) = Some l3).
{ rewrite O2 by discriminate. rewrite O1 by discriminate. exact G3. }
destruct (@add_skills_category_step t "Operational"
            (fst (widgets "Operational")) (snd (widgets "Operational"))
            teams2 T2 l3 HT2 G3')
  as (teams3 & msgs3 & T3 & E3 & HT3 & M3 & K3 & C3 & O3 & F3 & D3).
exists teams3, (([] ++ msgs1) ++ msgs2 ++ msgs3)%list, T3.
split.
{ unfold add_skills, CATEGORIES. cbn [fold_left bind fst snd].
  rewrite E1. cbn [bind fst snd]. rewrite E2. cbn [bind fst snd].
  rewrite E3. cbn [bind fst snd]. now rewrite <- !app_assoc. }
split; [exact HT3|]. split; [congruence|]. split; [congruence|].
split; [|split].
- intros c l Hc Hl. simpl in Hc.
  destruct Hc as [<-|[<-|[<-|[]]]].
  + rewrite O3 by discriminate. rewrite O2 by discriminate. congruence.
  + rewrite O3 by discriminate. congruence.
  + congruence.
- intros o Ho. rewrite F3, F2, F1; auto.
- congruence.
Qed.

Lemma shape_category : forall T c,
  team_shape T -> In c CATEGORIES ->
  exists l, Dict.get c (skills T) = Some l
            /\ category_ok (c, l) /\ l <> [] /\ (5 <= List.length l)%nat.
Proof.
intros T c (_ & K & F) Hc.
destruct (@keys_get _ (skills T) c) as [l G]; [now rewrite K|].
exists l. split; [exact G|].
rewrite Forall_forall in F. pose proof (F _ (get_In _ _ G)) as OK.
split; [exact OK|].
destruct OK as (_ & _ & [extra E]). simpl in E.
assert (L : (5 <= List.length l)%nat).
{ rewrite E, length_app. simpl in Hc.
  destruct Hc as [<-|[<-|[<-|[]]]]; simpl; lia. }
split; [|exact L]. intros ->. simpl in L. lia.
Qed.

(** X3: in every state the script reaches, team names are distinct and not
    empty, the member names of a team are distinct and clean, and the skill
    names of a category are distinct and clean. *)
Theorem reachable_names_unique : forall teams,
  reachable teams ->
  NoDup (Dict.keys teams)
  /\ ~ In EmptyString (Dict.keys teams)
  /\ forall t T, In (t, T) teams ->
       NoDup (Dict.keys (members T))
       /\ Forall clean_name (Dict.keys (members T))
       /\ forall c l, In (c, l) (skills T) -> NoDup l /\ Forall clean_name l.
Proof.
intros teams R.
destruct (reachable_ok R) as (W & F & N).
pose proof (reachable_shape R) as S. unfold session_shape in S.
rewrite Forall_forall in F, S.
split; [exact W|]. split; [now apply not_mem_keys|].
intros t T HT. destruct (F _ HT) as [Wm _]. destruct (S _ HT) as (C & _ & Fc).
simpl in *. split; [exact Wm|]. split; [exact C|].
intros c l Hl. rewrite Forall_forall in Fc.
destruct (Fc _ Hl) as (Nl & Cl & _). now split.
Qed.

Lemma reachable_names_unique_witness :
  NoDup (Dict.keys demo_teams) /\ ~ In EmptyString (Dict.keys demo_teams).
Proof.
pose proof (reachable_names_unique demo_reachable) as H.
split; [exact (proj1 H) | exact (proj1 (proj2 H))].
Defined.

(** X4: in every state the script reaches, every team has exactly the
    categories Technical, Domain and Operational, in that order, and every
    category still starts with its default skills: no skill is ever removed
    or moved, so a category never has fewer than 5 skills. *)
Theorem reachable_categories : forall teams,
  reachable teams ->
  forall t T, In (t, T) teams ->
    Dict.keys (skills T) = ["Technical"; "Domain"; "Operational"]
    /\ forall c, In c CATEGORIES ->
         exists extra,
           Dict.get c (skills T) = Some (default_skills c ++ extra)%list
           /\ (5 <= List.length (category_skills c T))%nat.
Proof.
intros teams R t T HT.
pose proof (reachable_shape R) as S. unfold session_shape in S.
rewrite Forall_forall in S. pose proof (S _ HT) as ST. simpl in ST.
split; [apply ST|].
intros c Hc. destruct (shape_category ST Hc) as (l & G & (_ & _ & [extra E]) & _ & L).
simpl in E. exists extra. split; [now rewrite G, E|].
unfold category_skills. now rewrite G.
Qed.

Lemma reachable_categories_witness :
  Dict.keys (skills new_team) = ["Technical"; "Domain"; "Operational"].
Proof.
exact (proj1 (reachable_categories (reach_add_team "Alpha" true reach_init)
                "Alpha" new_team (or_introl eq_refl))).
Defined.




(** * More on add_members *)

Lemma add_member_mem : forall ms name m,
  Dict.mem m ms = true -> Dict.mem m (add_member ms name) = true.
Proof.
intros ms name m H. unfold Dict.mem in *.
destruct (Dict.get m ms) as [d|] eqn:E; [|discriminate].
now rewrite (add_member_get ms name _ E).
Qed.

Lemma fold_add_member_mem : forall names ms m,
  Dict.mem m ms = true -> Dict.mem m (fold_left add_member names ms) = true.
Proof.
induction names as [|n names IH]; intros ms m H; cbn [fold_left]; [assumption|].
apply IH. now apply add_member_mem.
Qed.

Lemma fold_add_member_In : forall names ms n,
  In n names -> truthy n = true ->
  Dict.mem n (fold_left add_member names ms) = true.
Proof.
induction names as [|x names IH]; intros ms n Hn Ht; [contradiction|].
cbn [fold_left]. destruct (string_dec x n) as [->|N].
- apply fold_add_member_mem. unfold add_member. rewrite Ht. simpl.
  destruct (Dict.mem n ms) eqn:M; simpl; [assumption|].
  rewrite mem_set, String.eqb_refl. reflexivity.
- destruct Hn as [E|Hn]; [contradiction|]. now apply IH.
Qed.



Lemma submitted_clean : forall clicked text,
  Forall clean_name (submitted clicked text).
Proof.
intros clicked text. unfold submitted.
destruct (clicked && truthy text); [apply parse_names_clean | constructor].
Qed.

Lemma submitted_truthy : forall clicked text n,
  In n (submitted clicked text) -> truthy n = true.
Proof.
intros clicked text n H. pose proof (submitted_clean clicked text) as C.
rewrite Forall_forall in C. apply (C _ H).
Qed.



(** * More on assign_competency *)

Lemma store_level_id : forall m s v ms,
  level_of ms m s = Some v -> store_level m s v ms = ms.
Proof.
intros m s v ms H. unfold store_level.
destruct (level_of_Some _ _ _ H) as [d [Em Es]]. rewrite Em.
rewrite (set_get_id _ _ Es). now apply set_get_id.
Qed.

Lemma store_all_fixed : forall slider t cats ms,
  (forall m s, Dict.mem m ms = true ->
     existsb (fun cat => str_in s (snd cat)) cats = true ->
     level_of ms m s = Some (slider (slider_key t m s))) ->
  store_all slider t cats ms = ms.
Proof.
intros slider t cats ms H. unfold store_all.
assert (L1 : forall skill names,
  (forall n, In n names ->
     level_of ms n skill = Some (slider (slider_key t n skill))) ->
  fold_left
    (fun ms member_name =>
       store_level member_name skill
         (slider (slider_key t member_name skill)) ms)
    names ms = ms).
{ intros skill. induction names as [|n names IH]; intros Hn; cbn [fold_left].
  - reflexivity.
  - rewrite store_level_id by (apply Hn; now left).
    apply IH. intros x Hx. apply Hn. now right. }
assert (L2 : forall sk,
  (forall m s, Dict.mem m ms = true -> In s sk ->
     level_of ms m s = Some (slider (slider_key t m s))) ->
  fold_left (fun ms skill => store_skill slider t skill ms) sk ms = ms).
{ induction sk as [|skill sk IH]; intros Hs; cbn [fold_left].
  - reflexivity.
  - assert (E : store_skill slider t skill ms = ms).
    { unfold store_skill. apply L1. intros n Hn.
      apply Hs; [now apply mem_keys | now left]. }
    rewrite E. apply IH. intros m s Hm Hin. apply Hs; [assumption | now right]. }
induction cats as [|cat cats IH]; cbn [fold_left].
- reflexivity.
- rewrite L2.
  + apply IH. intros m s Hm Hs. apply H; [assumption|].
    cbn [existsb]. now rewrite Hs, orb_true_r.
  + intros m s Hm Hs. apply H; [assumption|].
    cbn [existsb]. apply str_in_In in Hs. now rewrite Hs.
Qed.

(** X8: [assign_competency] touches nothing but the levels of the team's
    members for the team's skills: the other teams are as before, the team
    names keep their order, a level recorded for a skill that is in no
    category of the team is kept, and every level found afterwards is either
    the one that was there or the slider's value. *)
Theorem assign_competency_frame : forall slider used t teams T teams' msgs,
  Dict.get t teams = Some T ->
  assign_competency slider used t teams = Ok (teams', msgs) ->
  Dict.keys teams' = Dict.keys teams
  /\ (forall o, o <> t -> Dict.get o teams' = Dict.get o teams)
  /\ (forall m s, (forall c l, In (c, l) (skills T) -> ~ In s l) ->
                  score teams' t m s = score teams t m s)
  /\ (forall m s l, score teams' t m s = Some l ->
                    score teams t m s = Some l
                    \/ l = slider (slider_key t m s)).
Proof.
intros slider used t teams T teams' msgs HT E.
destruct (assign_competency_ok _ _ _ _ HT E)
  as [(_ & -> & _)|(_ & _ & -> & _)].
- repeat split; auto.
- split; [apply keys_set_present; unfold Dict.mem; now rewrite HT|].
  split; [intros o Ho; now apply get_set_other|].
  unfold score. rewrite get_set_same, HT. cbn [members].
  split.
  + intros m s Hs.
    rewrite (proj2 (store_all_spec slider t (skills T) (members T) m s)).
    assert (X : existsb (fun cat => str_in s (snd cat)) (skills T) = false).
    { destruct (existsb (fun cat => str_in s (snd cat)) (skills T)) eqn:X;
        [|reflexivity].
      apply existsb_exists in X. destruct X as [[c l] [Hc Hl]].
      apply str_in_In in Hl. now apply Hs in Hc. }
    now rewrite X.
  + intros m s l.
    rewrite (proj2 (store_all_spec slider t (skills T) (members T) m s)).
    destruct (existsb (fun cat => str_in s (snd cat)) (skills T)
              && Dict.mem m (members T)).
    * intros [= <-]. now right.
    * now left.
Qed.

Lemma assign_competency_frame_witness :
  exists teams' msgs,
    assign_competency (fun _ => 9) [] "Alpha"
      [("Alpha", mkTeam [("Ana", [("Rust", 2)])] DEFAULT_SKILLS);
       ("Beta", mkTeam [("Bo", [("SQL", 1)])] DEFAULT_SKILLS)]
    = Ok (teams', msgs)
    /\ score teams' "Alpha" "Ana" "Rust" = Some 2
    /\ Dict.get "Beta" teams'
       = Some (mkTeam [("Bo", [("SQL", 1)])] DEFAULT_SKILLS).
Proof.
destruct (assign_competency (fun _ => 9) [] "Alpha"
            [("Alpha", mkTeam [("Ana", [("Rust", 2)])] DEFAULT_SKILLS);
             ("Beta", mkTeam [("Bo", [("SQL", 1)])] DEFAULT_SKILLS)])
  as [[teams' msgs]|k|e teams'] eqn:E;
  [|vm_compute in E; discriminate E|vm_compute in E; discriminate E].
exists teams', msgs. split; [reflexivity|].
destruct (@assign_competency_frame (fun _ => 9) [] "Alpha"
            [("Alpha", mkTeam [("Ana", [("Rust", 2)])] DEFAULT_SKILLS);
             ("Beta", mkTeam [("Bo", [("SQL", 1)])] DEFAULT_SKILLS)]
            (mkTeam [("Ana", [("Rust", 2)])] DEFAULT_SKILLS)
            teams' msgs eq_refl E) as (_ & H2 & H3 & _).
split.
- rewrite (H3 "Ana" "Rust"); [reflexivity|].
  intros c l Hc Hl. simpl in Hc.
  destruct Hc as [[= <- <-]|[[= <- <-]|[[= <- <-]|[]]]]; simpl in Hl;
    repeat (destruct Hl as [Hl|Hl]; [discriminate Hl|]); exact Hl.
- rewrite (H2 "Beta"); [reflexivity | discriminate].
Defined.

(** X9: running [assign_competency] again with the same slider values, and
    the same keys in use before the call, gives the same state and the same
    messages as the first run. *)
Theorem assign_competency_idempotent : forall slider used t teams teams1 msgs,
  assign_competency slider used t teams = Ok (teams1, msgs) ->
  assign_competency slider used t teams1 = Ok (teams1, msgs).
Proof.
intros slider used t teams teams1 msgs E.
destruct (Dict.get t teams) as [T|] eqn:HT;
  [|unfold assign_competency in E; rewrite HT in E; discriminate E].
destruct (assign_competency_ok _ _ _ _ HT E)
  as [(_ & -> & _)|(Hany & -> & -> & R)]; [exact E|].
set (T1 := mkTeam (store_all slider t (skills T) (members T)) (skills T)).
assert (HT1 : Dict.get t (Dict.set t T1 teams) = Some T1)
  by apply get_set_same.
assert (K : Dict.keys (members T1) = Dict.keys (members T))
  by apply (store_all_spec slider t (skills T) (members T)
              EmptyString EmptyString).
assert (S : same_run (mkProgress (members T) used None)
                     (mkProgress (members T1) used None)).
{ unfold same_run. cbn [p_members p_used p_raised]. now rewrite K. }
apply (assign_all_same slider t (skills T)) in S.
destruct S as (_ & _ & S). rewrite R in S.
destruct (assign_competency_outcome slider used t _ HT1 Hany)
  as [[_ E1]|[e [R1 _]]];
  [|unfold T1 in R1, S; cbn [skills members] in R1, S; congruence].
rewrite E1. unfold T1 at 1 2 3. cbn [skills members].
rewrite store_all_fixed.
- fold T1. now rewrite (set_get_id _ _ HT1).
- intros m s Hm Hs.
  rewrite (proj2 (store_all_spec slider t (skills T) (members T) m s)).
  rewrite Hs.
  rewrite (mem_same_keys (store_all slider t (skills T) (members T))
             (members T) m K) in Hm.
  now rewrite Hm.
Qed.

Lemma assign_competency_idempotent_witness :
  assign_competency demo_slider [] "Alpha" demo_teams = Ok (demo_teams, []).
Proof.
apply (@assign_competency_idempotent demo_slider [] "Alpha"
         [("Alpha", mkTeam [("Ana", []); ("Ben", [])] DEFAULT_SKILLS)]).
vm_compute. reflexivity.
Defined.

(** * More on the aggregation and the charts *)

Lemma skill_stats_holds : forall sk ms, stats_inv ms sk (skill_stats sk ms).
Proof.
intros sk ms. unfold skill_stats. change sk with ([] ++ sk)%list at 1.
apply skill_stats_inv. unfold stats_inv. simpl. repeat split; constructor.
Qed.





Lemma filter_all : forall (A : Type) (f : A -> bool) (l : list A),
  (forall x, In x l -> f x = true) -> filter f l = l.
Proof.
intros A f. induction l as [|x l IH]; intros H; [reflexivity|].
cbn [filter]. rewrite (H x (or_introl eq_refl)). f_equal.
apply IH. intros y Hy. apply H. now right.
Qed.

Lemma filter_none : forall (A : Type) (f : A -> bool) (l : list A),
  (forall x, In x l -> f x = false) -> filter f l = [].
Proof.
intros A f. induction l as [|x l IH]; intros H; [reflexivity|].
cbn [filter]. rewrite (H x (or_introl eq_refl)).
apply IH. intros y Hy. apply H. now right.
Qed.

Lemma level_has_contributor : forall ms m s l,
  level_of ms m s = Some l -> has_contributor ms s = true.
Proof.
intros ms m s l H. destruct (level_of_Some _ _ _ H) as [d [Em Es]].
unfold has_contributor. apply existsb_exists. exists (m, d).
split; [now apply get_In|]. simpl. unfold Dict.mem. now rewrite Es.
Qed.

(** X11: when [assign_competency] has returned on a team that has members,
    every skill of a category has a contributor, so the number of eligible
    skills is the number of skills of the category: the chart of the category
    is drawn, over all its skills in their order, exactly when the category
    has between 5 and 8 skills, and otherwise the warning reports that
    number. *)
Theorem chart_after_assign : forall slider used t c teams T teams' msgs0,
  Dict.get t teams = Some T ->
  members T <> [] ->
  category_skills c T <> [] ->
  assign_competency slider used t teams = Ok (teams', msgs0) ->
  exists fig msgs,
    display_category_radar_chart t c teams' = Ok (fig, msgs)
    /\ (fig <> None <-> (5 <= List.length (category_skills c T) <= 8)%nat)
    /\ (forall f, fig = Some f ->
          fig_theta f = category_skills c T /\ msgs = [])
    /\ (fig = None ->
          msgs = [count_warning c (List.length (category_skills c T))]).
Proof.
intros slider used t c teams T teams' msgs0 HT Hm Hc E.
assert (Hl : exists l, Dict.get c (skills T) = Some l /\ category_skills c T = l).
{ unfold category_skills in *. destruct (Dict.get c (skills T)) as [l|];
    [now exists l | congruence]. }
destruct Hl as [l [Gl El]]. rewrite El in *.
assert (Hany : existsb nonempty (Dict.values (skills T)) = true).
{ apply existsb_exists. exists l. split.
  - unfold Dict.values. change l with (snd (c, l)). apply in_map.
    now apply get_In.
  - destruct l; [congruence | reflexivity]. }
set (ms' := store_all slider t (skills T) (members T)).
assert (K : Dict.keys ms' = Dict.keys (members T))
  by apply (store_all_spec slider t (skills T) (members T) EmptyString EmptyString).
assert (Hms' : nonempty ms' = true).
{ destruct ms' as [|e r]; [|reflexivity].
  destruct (members T); [congruence | discriminate K]. }
assert (Hall : Skill (skill_stats l ms') = l).
{ destruct (skill_stats_holds l ms') as (_ & _ & _ & S & _). rewrite S.
  apply filter_all. intros s Hs.
  assert (M0 : exists m0, Dict.mem m0 (members T) = true).
  { destruct (members T) as [|[m0 d0] r]; [congruence|]. exists m0.
    unfold Dict.mem. simpl. now rewrite String.eqb_refl. }
  destruct M0 as [m0 M0].
  apply (@level_has_contributor ms' m0 s (slider (slider_key t m0 s))).
  unfold ms'. rewrite (proj2 (store_all_spec slider t (skills T) (members T) m0 s)).
  assert (E1 : existsb (fun cat => str_in s (snd cat)) (skills T) = true).
  { apply existsb_exists. exists (c, l). split; [now apply get_In|].
    now apply str_in_In. }
  now rewrite E1, M0. }
destruct (assign_competency_ok _ _ _ _ HT E)
  as [(N & _)|(_ & _ & -> & _)]; [congruence|]. fold ms'.
unfold display_category_radar_chart. rewrite get_set_same.
assert (Ec : category_skills c (mkTeam ms' (skills T)) = l)
  by (unfold category_skills; cbn [skills]; now rewrite Gl).
rewrite Ec. cbn [skills members]. rewrite Hms'.
assert (Nl : nonempty l = true) by (destruct l; [congruence | reflexivity]).
rewrite Nl. cbn [negb orb]. rewrite Hall.
destruct ((List.length l <? 5)%nat || (8 <? List.length l)%nat) eqn:R.
- eexists _, _. split; [reflexivity|].
  apply orb_true_iff in R. rewrite !Nat.ltb_lt in R.
  split; [|split].
  + split; [intros H; now contradiction H | lia].
  + discriminate.
  + reflexivity.
- eexists _, _. split; [reflexivity|].
  apply orb_false_iff in R. rewrite !Nat.ltb_ge in R.
  split; [|split].
  + split; [lia | discriminate].
  + intros f [= <-]. split; reflexivity.
  + discriminate.
Qed.

Lemma chart_after_assign_witness :
  exists teams' fig msgs,
    assign_competency (fun _ => 4) [] "Alpha"
      [("Alpha", mkTeam [("Ana", [])] DEFAULT_SKILLS)] = Ok (teams', [])
    /\ display_category_radar_chart "Alpha" "Domain" teams' = Ok (fig, msgs)
    /\ (fig <> None <-> (5 <= 5 <= 8)%nat).
Proof.
destruct (assign_competency (fun _ => 4) [] "Alpha"
            [("Alpha", mkTeam [("Ana", [])] DEFAULT_SKILLS)])
  as [[teams' msgs0]|k|e teams'] eqn:E;
  [|vm_compute in E; discriminate E|vm_compute in E; discriminate E].
assert (M : msgs0 = []) by (vm_compute in E; now injection E).
destruct (@chart_after_assign (fun _ => 4) [] "Alpha" "Domain"
            [("Alpha", mkTeam [("Ana", [])] DEFAULT_SKILLS)]
            (mkTeam [("Ana", [])] DEFAULT_SKILLS) teams' msgs0 eq_refl
            ltac:(discriminate) ltac:(discriminate) E)
  as (fig & msgs & H2 & H3 & _).
exists teams', fig, msgs. rewrite M. auto.
Defined.

(** * Deleting a team, and the export button *)

Lemma get_del_other : forall (V : Type) (d : Dict.t V) k k',
  k' <> k -> Dict.get k' (Dict.del k d) = Dict.get k' d.
Proof.
intros V. induction d as [|[k0 v0] r IH]; intros k k' N; simpl; [reflexivity|].
destruct (String.eqb_spec k k0) as [->|Nk]; simpl.
- destruct (String.eqb_spec k' k0); [contradiction | reflexivity].
- destruct (String.eqb k' k0); [reflexivity | now apply IH].
Qed.

Lemma get_del_same : forall (V : Type) (d : Dict.t V) k,
  Dict.wf d -> Dict.get k (Dict.del k d) = None.
Proof.
intros V. unfold Dict.wf.
induction d as [|[k0 v0] r IH]; intros k W; simpl; [reflexivity|].
inversion W as [|? ? Hnot Hr]; subst.
destruct (String.eqb_spec k k0) as [->|Nk]; simpl.
- destruct (Dict.get k0 r) eqn:E; [|reflexivity].
  exfalso. apply Hnot. apply mem_keys. unfold Dict.mem. now rewrite E.
- destruct (String.eqb_spec k k0); [contradiction | now apply IH].
Qed.

Lemma team_rows_team : forall te r, In r (team_rows te) -> Team r = fst te.
Proof.
intros te r H. unfold team_rows in H. apply in_flat_map in H.
destruct H as [me [_ H]]. unfold member_rows in H. apply in_map_iff in H.
destruct H as [se [<- _]]. reflexivity.
Qed.

Lemma export_without_team : forall teams t,
  ~ In t (Dict.keys teams) ->
  filter (fun r => negb (String.eqb (Team r) t)) (export_data teams)
  = export_data teams.
Proof.
intros teams t H. apply filter_all. intros r Hr.
unfold export_data in Hr. apply in_flat_map in Hr. destruct Hr as [te [Hte Hr]].
apply team_rows_team in Hr. rewrite Hr. apply negb_true_iff, String.eqb_neq.
intros E. apply H. rewrite <- E. unfold Dict.keys. now apply in_map.
Qed.

(** X12: deleting a team that the state has, in a state with distinct team
    names, removes from the export exactly the rows of that team and keeps
    the other rows in their order; the deleted team has no score left, and
    the scores of the other teams are as before. *)
Theorem export_after_delete : forall teams t,
  Dict.wf teams ->
  Dict.mem t teams = true ->
  export_data (delete_team t teams)
  = filter (fun r => negb (String.eqb (Team r) t)) (export_data teams)
  /\ (forall m s, score (delete_team t teams) t m s = None)
  /\ (forall o m s, o <> t ->
        score (delete_team t teams) o m s = score teams o m s).
Proof.
intros teams t W _. split; [|split].
- unfold delete_team. revert W. unfold Dict.wf.
  induction teams as [|[k0 T0] r IH]; intros W; [reflexivity|].
  inversion W as [|? ? Hnot Hr]; subst.
  change (export_data ((k0, T0) :: r))
    with (team_rows (k0, T0) ++ export_data r)%list.
  rewrite filter_app. cbn [Dict.del].
  destruct (String.eqb_spec t k0) as [->|N].
  + rewrite filter_none.
    * simpl. symmetry. now apply export_without_team.
    * intros x Hx. apply team_rows_team in Hx. rewrite Hx. simpl.
      now rewrite String.eqb_refl.
  + change (export_data ((k0, T0) :: Dict.del t r))
      with (team_rows (k0, T0) ++ export_data (Dict.del t r))%list.
    rewrite (IH Hr). f_equal. symmetry. apply filter_all.
    intros x Hx. apply team_rows_team in Hx. rewrite Hx. simpl.
    apply negb_true_iff, String.eqb_neq. congruence.
- intros m s. unfold score, delete_team. now rewrite get_del_same.
- intros o m s N. unfold score, delete_team. now rewrite get_del_other.
Qed.

Lemma export_after_delete_witness :
  export_data (delete_team "Alpha" demo_teams) = [].
Proof.
exact (proj1 (@export_after_delete demo_teams "Alpha"
                (proj1 (session_ok_wf (reachable_ok demo_reachable)))
                eq_refl)).
Defined.

(** X13: in a state whose dictionaries have distinct keys, pressing the
    export button offers the exported rows for download when some member has
    a recorded level, and gives the warning that there is nothing to export,
    with no download, when no level is recorded (teams and members alone do
    not make an export). *)
Theorem export_button_offers : forall teams,
  session_wf teams ->
  ((exists t m s l, score teams t m s = Some l) ->
   export_button true teams = (Some (export_data teams), []))
  /\ ((forall t m s, score teams t m s = None) ->
      export_button true teams = (None, [st_warning "No data to export."])).
Proof.
intros teams W. unfold export_button. split.
- intros (t & m & s & l & H). apply (score_In _ _ _ _ W) in H.
  apply export_In in H. destruct (export_data teams); [contradiction|].
  reflexivity.
- intros H. destruct (export_data teams) as [|[t m s l] rows] eqn:E;
    [reflexivity|].
  assert (Hin : In (mkRow t m s l) (export_data teams))
    by (rewrite E; now left).
  apply export_In in Hin. apply (score_In _ _ _ _ W) in Hin.
  rewrite H in Hin. discriminate.
Qed.

Lemma export_button_offers_witness :
  export_button true [("Alpha", mkTeam [("Ana", []); ("Ben", [])] DEFAULT_SKILLS)]
  = (None, [st_warning "No data to export."]).
Proof.
apply (proj2 (@export_button_offers
                [("Alpha", mkTeam [("Ana", []); ("Ben", [])] DEFAULT_SKILLS)]
                (session_ok_wf (reachable_ok
                   (reach_add_members "Alpha" "Ana, Ben" true
                      (reach_add_team "Alpha" true reach_init) eq_refl))))).
intros t m s. unfold score. simpl.
destruct (String.eqb t "Alpha"); [|reflexivity].
unfold level_of. simpl.
destruct (String.eqb m "Ana"); [reflexivity|].
destruct (String.eqb m "Ben"); reflexivity.
Defined.

(** * add_team and the other teams *)

(** X14: whatever the name and the button, [add_team] keeps every team of
    the state with its members, skills and levels, in the same place: the
    new state is the old one, or the old one followed by one new team. *)
Theorem add_team_keeps_teams : forall name clicked teams,
  (fst (add_team name clicked teams) = teams
   \/ fst (add_team name clicked teams) = (teams ++ [(name, new_team)])%list)
  /\ (forall t T, Dict.get t teams = Some T ->
                  Dict.get t (fst (add_team name clicked teams)) = Some T)
  /\ (forall t m s l, score teams t m s = Some l ->
                      score (fst (add_team name clicked teams)) t m s = Some l).
Proof.
intros name clicked teams.
assert (K : forall t T, Dict.get t teams = Some T ->
                        Dict.get t (fst (add_team name clicked teams)) = Some T).
{ intros t T H. unfold add_team. destruct clicked; [|exact H].
  destruct (truthy name && negb (Dict.mem name teams)) eqn:C.
  - simpl. apply andb_true_iff in C. destruct C as [_ C].
    apply negb_true_iff in C. rewrite get_set_other; [exact H|].
    intros ->. unfold Dict.mem in C. now rewrite H in C.
  - destruct (Dict.mem name teams); exact H. }
split; [|split; [exact K|]].
- unfold add_team. destruct clicked; [|now left].
  destruct (truthy name && negb (Dict.mem name teams)) eqn:C.
  + right. simpl. apply andb_true_iff in C. destruct C as [_ C].
    apply negb_true_iff in C. now apply set_absent.
  + left. destruct (Dict.mem name teams); reflexivity.
- intros t m s l. unfold score.
  destruct (Dict.get t teams) as [T|] eqn:E; [|discriminate].
  now rewrite (K _ _ E).
Qed.

(** * The manage block *)

Lemma manage_skills_stuck : forall w t cats (acc : result (session * list message * list string)),
  (forall a, acc <> Ok a) ->
  forall a, fold_left (manage_skills w t) cats acc <> Ok a.
Proof.
intros w t. induction cats as [|c cats IH]; intros acc H; [exact H|].
cbn [fold_left]. apply IH. intros a.
destruct acc as [a0|k|e s0]; [now contradiction (H a0) | discriminate..].
Qed.

(** When no text area of the loop raises, the loop is [add_skills]. *)
Lemma manage_skills_add_skills : forall w t cats teams msgs0 msgs used r,
  fold_left (manage_skills w t) cats (Ok (teams, (msgs0 ++ msgs)%list, used))
  = Ok r ->
  exists m,
    fold_left
      (fun acc category =>
         p <- acc ;;
         q <- add_skills_category t category
                (text_area w ("add_skills_" ++ t ++ "_" ++ category))
                (button w ("Add " ++ category ++ " Skills to " ++ t))
                (fst p) ;;
         Ok (fst q, (snd p ++ snd q)%list))
      cats (Ok (teams, msgs))
    = Ok (fst (fst r), m)
    /\ snd (fst r) = (msgs0 ++ m)%list.
Proof.
intros w t. induction cats as [|c cats IH]; intros teams msgs0 msgs used r H.
- cbn [fold_left] in *. injection H as <-. now exists msgs.
- cbn [fold_left] in *.
  unfold manage_skills at 2 in H. cbn [bind fst snd] in H.
  cbn [bind fst snd].
  destruct (st_text_area ("add_skills_" ++ t ++ "_" ++ c) used) as [e|].
  + exfalso. revert H. apply manage_skills_stuck. discriminate.
  + destruct (add_skills_category t c
                (text_area w ("add_skills_" ++ t ++ "_" ++ c))
                (button w ("Add " ++ c ++ " Skills to " ++ t)) teams)
      as [q|k|e s0]; cbn [bind] in *.
    * rewrite <- app_assoc in H. exact (IH _ _ _ _ _ H).
    * exfalso. revert H. apply manage_skills_stuck. discriminate.
    * exfalso. revert H. apply manage_skills_stuck. discriminate.
Qed.

(** X15: for a team of a reachable state, when the manage block (add
    members, add skills, assign competency, in this order) returns, the team
    has its former members and the submitted ones, each category has its
    former skills and the submitted ones, and every member of the team, new
    ones included, has for every skill of every category, new ones included,
    the value of its slider as recorded level; the other teams are as
    before. *)
Theorem manage_expander_scores_everyone : forall w used t teams T teams' msgs,
  reachable teams ->
  Dict.get t teams = Some T ->
  manage_expander w used t teams = Ok (teams', msgs) ->
  exists T',
    Dict.get t teams' = Some T'
    /\ (forall m,
          In m (Dict.keys (members T))
          \/ In m (submitted (button w ("Add Members to " ++ t))
                     (text_area w ("add_members_" ++ t))) ->
          In m (Dict.keys (members T')))
    /\ (forall c s,
          In c CATEGORIES ->
          In s (category_skills c T)
          \/ In s (submitted (button w ("Add " ++ c ++ " Skills to " ++ t))
                     (text_area w ("add_skills_" ++ t ++ "_" ++ c))) ->
          In s (category_skills c T'))
    /\ (forall m c s,
          In m (Dict.keys (members T')) ->
          In c CATEGORIES ->
          In s (category_skills c T') ->
          level_of (members T') m s
          = Some (slider_value w (slider_key t m s)))
    /\ (forall o, o <> t -> Dict.get o teams' = Dict.get o teams).
Proof.
intros w used t teams T teams' msgs R HT E.
pose proof (session_shape_get _ (reachable_shape R) HT) as ST.
set (mtext := text_area w ("add_members_" ++ t)).
set (mclick := button w ("Add Members to " ++ t)).
set (widgets := fun category : string =>
  (text_area w ("add_skills_" ++ t ++ "_" ++ category),
   button w ("Add " ++ category ++ " Skills to " ++ t))).
destruct (@add_members_result t mtext mclick teams T HT) as [msgs1 E1].
set (ms1 := fold_left add_member (submitted mclick mtext) (members T)) in *.
set (T1 := mkTeam ms1 (skills T)) in *.
assert (HT1 : Dict.get t (Dict.set t T1 teams) = Some T1) by apply get_set_same.
destruct (@add_skills_result t widgets (Dict.set t T1 teams) T1 HT1
            (proj1 (proj2 ST)))
  as (teams2 & msgs2 & T2 & E2 & HT2 & M2 & K2 & C2 & O2 & _).
assert (Cat : forall c, In c CATEGORIES ->
  exists l, Dict.get c (skills T) = Some l /\ l <> []
            /\ category_skills c T = l
            /\ category_skills c T2
               = fold_left add_skill
                   (submitted (snd (widgets c)) (fst (widgets c))) l).
{ intros c Hc. destruct (shape_category ST Hc) as (l & G & _ & Nl & _).
  exists l. split; [exact G|]. split; [exact Nl|].
  split; [unfold category_skills; now rewrite G|].
  unfold category_skills. now rewrite (C2 c l Hc G). }
assert (Hany : existsb nonempty (Dict.values (skills T2)) = true).
{ destruct (Cat "Technical") as (l & G & Nl & _ & E'); [simpl; auto|].
  destruct (fold_add_skill_prefix
              (submitted (snd (widgets "Technical")) (fst (widgets "Technical"))) l)
    as [extra [Ex _]].
  unfold category_skills in E'.
  destruct (Dict.get "Technical" (skills T2)) as [l'|] eqn:G2.
  - apply existsb_exists. exists l'. split.
    + unfold Dict.values. change l' with (snd ("Technical", l')).
      apply in_map. now apply get_In.
    + rewrite E', Ex. destruct l; [congruence | reflexivity].
  - rewrite Ex in E'. destruct l; [congruence | discriminate E']. }
set (ms3 := store_all (slider_value w) t (skills T2) (members T2)) in *.
assert (E3 : teams' = Dict.set t (mkTeam ms3 (skills T2)) teams2).
{ unfold manage_expander, add_members_ui in E.
  destruct (st_text_area ("add_members_" ++ t) used); [discriminate E|].
  fold mtext mclick in E. rewrite E1 in E. cbn [bind fst snd] in E.
  match type of E with
  | bind ?x _ = _ => destruct x as [r|k|e s0] eqn:F
  end; [|(cbn [bind] in E; discriminate E)..].
  cbn [bind] in E.
  destruct (@manage_skills_add_skills w t CATEGORIES (Dict.set t T1 teams)
              msgs1 [] (("add_members_" ++ t) :: used) r)
    as [m [A _]]; [now rewrite app_nil_r|].
  change (add_skills t widgets (Dict.set t T1 teams) = Ok (fst (fst r), m)) in A.
  rewrite E2 in A. injection A as A _.
  match type of E with
  | bind ?x _ = _ => destruct x as [p3|k|e s0] eqn:G
  end; [|(cbn [bind] in E; discriminate E)..].
  cbn [bind] in E. injection E as <- _.
  rewrite <- A in G. destruct p3 as [teams3 msgs3].
  destruct (assign_competency_ok _ _ _ _ HT2 G)
    as [(N & _)|(_ & _ & -> & _)]; [congruence | reflexivity]. }
subst teams'.
exists (mkTeam ms3 (skills T2)).
assert (K3 : Dict.keys ms3 = Dict.keys ms1).
{ unfold ms3.
  rewrite (proj1 (store_all_spec (slider_value w) t (skills T2) (members T2)
                    EmptyString EmptyString)).
  now rewrite M2. }
split; [apply get_set_same|]. cbn [members].
split; [|split; [|split]].
- intros m Hm. rewrite K3. apply mem_keys. unfold ms1.
  destruct Hm as [Hm|Hm].
  + apply fold_add_member_mem. now apply mem_keys.
  + apply fold_add_member_In; [assumption|].
    now apply (submitted_truthy mclick mtext).
- intros c s Hc Hs. destruct (Cat c Hc) as (l & G & Nl & El & E2').
  change (category_skills c (mkTeam ms3 (skills T2)))
    with (category_skills c T2).
  rewrite E2'. rewrite El in Hs. destruct Hs as [Hs|Hs].
  + destruct (fold_add_skill_prefix
                (submitted (snd (widgets c)) (fst (widgets c))) l)
      as [extra [Ex _]].
    rewrite Ex. apply in_or_app. now left.
  + apply fold_add_skill_In; [exact Hs|].
    now apply (submitted_truthy (snd (widgets c)) (fst (widgets c))).
- intros m c s Hm Hc Hs.
  change (category_skills c (mkTeam ms3 (skills T2)))
    with (category_skills c T2) in Hs.
  unfold ms3.
  rewrite (proj2 (store_all_spec (slider_value w) t (skills T2) (members T2)
                    m s)).
  assert (Mm : Dict.mem m (members T2) = true).
  { apply mem_keys. rewrite M2. cbn [members T1]. now rewrite <- K3. }
  assert (Ex : existsb (fun cat => str_in s (snd cat)) (skills T2) = true).
  { unfold category_skills in Hs.
    destruct (Dict.get c (skills T2)) as [l'|] eqn:G2; [|contradiction].
    apply existsb_exists. exists (c, l'). split; [now apply get_In|].
    now apply str_in_In. }
  now rewrite Mm, Ex.
- intros o Ho. rewrite get_set_other by exact Ho.
  rewrite (O2 o Ho). now apply get_set_other.
Qed.

Lemma manage_expander_scores_everyone_witness :
  exists teams' msgs T',
    manage_expander demo_ui ["add_team"] "Alpha" demo_teams = Ok (teams', msgs)
    /\ Dict.get "Alpha" teams' = Some T'
    /\ level_of (members T') "Cy" "omics" = Some 5.
Proof.
destruct (manage_expander demo_ui ["add_team"] "Alpha" demo_teams)
  as [[teams' msgs]|k|e teams'] eqn:E;
  [|vm_compute in E; discriminate E|vm_compute in E; discriminate E].
destruct (@manage_expander_scores_everyone demo_ui ["add_team"] "Alpha"
            demo_teams _ teams' msgs demo_reachable eq_refl E)
  as (T' & H2 & H3 & H4 & H5 & _).
exists teams', msgs, T'. split; [reflexivity|]. split; [exact H2|].
apply (H5 "Cy" "Domain" "omics").
- apply H3. right. vm_compute. auto.
- simpl. auto.
- apply H4; [simpl; auto|]. right. vm_compute. auto.
Defined.

(** * A team that the state does not have *)

(** X16: for a team name that is not in the state, [assign_competency] and
    the chart request raise [KeyError] on that name; [add_members] and
    [add_skills_category] raise it only when a name is submitted, and
    otherwise return with the state as it is. *)
Theorem unknown_team_raises : forall t teams,
  Dict.get t teams = None ->
  (forall slider used, assign_competency slider used t teams = KeyError t)
  /\ (forall c, display_category_radar_chart t c teams = KeyError t)
  /\ (forall text clicked,
        (submitted clicked text <> [] ->
         add_members t text clicked teams = KeyError t)
        /\ (submitted clicked text = [] ->
            exists msgs, add_members t text clicked teams = Ok (teams, msgs)))
  /\ (forall c text clicked,
        (submitted clicked text <> [] ->
         add_skills_category t c text clicked teams = KeyError t)
        /\ (submitted clicked text = [] ->
            exists msgs,
              add_skills_category t c text clicked teams = Ok (teams, msgs))).
Proof.
intros t teams H. split; [|split; [|split]].
- intros slider used. unfold assign_competency. now rewrite H.
- intros c. unfold display_category_radar_chart. now rewrite H.
- intros text clicked. unfold add_members, submitted.
  destruct clicked; simpl; [|split; [congruence | eauto]].
  destruct (truthy text); simpl; [|split; [congruence | eauto]].
  destruct (parse_names text) as [|n names]; [split; [congruence | eauto]|].
  rewrite H. split; [reflexivity | discriminate].
- intros c text clicked. unfold add_skills_category, submitted.
  destruct clicked; simpl; [|split; [congruence | eauto]].
  destruct (truthy text); simpl; [|split; [congruence | eauto]].
  destruct (parse_names text) as [|n names]; [split; [congruence | eauto]|].
  rewrite H. split; [reflexivity | discriminate].
Qed.

Lemma unknown_team_raises_witness :
  add_members "Beta" "Ana" true demo_teams = KeyError "Beta"
  /\ assign_competency demo_slider [] "Beta" demo_teams = KeyError "Beta".
Proof.
pose proof (@unknown_team_raises "Beta" demo_teams eq_refl) as (H1 & _ & H3 & _).
split; [|exact (H1 demo_slider [])].
apply (proj1 (H3 "Ana" true)). discriminate.
Defined.

(** * add_skills over its three categories *)



Lemma add_team_keeps_teams_witness :
  score (fst (add_team "Beta" true demo_teams)) "Alpha" "Ana" "Python" = Some 7.
Proof.
exact (proj2 (proj2 (add_team_keeps_teams "Beta" true demo_teams))
         "Alpha" "Ana" "Python" 7 eq_refl).
Defined.

Lemma parse_names_clean_witness :
  Forall clean_name (parse_names "  Ana ,, Ben Li ").
Proof. exact (parse_names_clean "  Ana ,, Ben Li "). Defined.

(** * When assign_competency returns *)

Lemma sliders_accepted_spec : forall slider ks used,
  sliders_accepted slider ks used = true
  <-> NoDup ks
      /\ forall k, In k ks -> ~ In k used /\ 0 <= slider k <= 10.
Proof.
intros slider. induction ks as [|a ks IH]; intros used; cbn [sliders_accepted].
- split; [|reflexivity]. intros _. split; [constructor | intros k []].
- unfold st_slider. destruct (str_in a used) eqn:S.
  + split; [discriminate|]. intros [_ H].
    destruct (H a (or_introl eq_refl)) as [N _].
    apply str_in_In in S. contradiction.
  + assert (Na : ~ In a used).
    { intros Hin. apply str_in_In in Hin. congruence. }
    destruct ((0 <=? slider a) && (slider a <=? 10)) eqn:R.
    * apply andb_true_iff in R. destruct R as [R1 R2].
      apply Z.leb_le in R1, R2. rewrite IH. split.
      -- intros [ND H]. split.
         ++ constructor; [|exact ND]. intros Hin.
            destruct (H a Hin) as [N _]. apply N. now left.
         ++ intros k [<-|Hk]; [split; [exact Na | lia]|].
            destruct (H k Hk) as [N Rk]. split; [|exact Rk].
            intros Hu. apply N. now right.
      -- intros [ND H]. inversion ND as [|? ? Hnot ND']; subst.
         split; [exact ND'|]. intros k Hk.
         destruct (H k (or_intror Hk)) as [N Rk]. split; [|exact Rk].
         intros [<-|Hu]; [contradiction | now apply N].
    * split; [discriminate|]. intros [_ H].
      destruct (H a (or_introl eq_refl)) as [_ Rk].
      apply andb_false_iff in R. rewrite !Z.leb_gt in R. lia.
Qed.

Lemma sliders_accepted_app : forall slider a b used,
  sliders_accepted slider (a ++ b) used
  = sliders_accepted slider a used
    && sliders_accepted slider b (rev a ++ used).
Proof.
intros slider. induction a as [|k a IH]; intros b used; [reflexivity|].
cbn [app sliders_accepted rev].
destruct (st_slider slider 0 10 k used); [reflexivity|].
rewrite IH, <- app_assoc. reflexivity.
Qed.

Section SliderOutcome.
Variable slider : string -> Z.
Variable team_name : string.

Lemma loop_outcome_app : forall a b p p1 p2,
  loop_outcome slider a p p1 ->
  (p_raised p1 <> None -> p_raised p2 <> None) ->
  (p_raised p1 = None -> loop_outcome slider b p1 p2) ->
  loop_outcome slider (a ++ b) p p2.
Proof.
intros a b p p1 p2. unfold loop_outcome. rewrite sliders_accepted_app.
destruct (sliders_accepted slider a (p_used p)); cbn [andb].
- intros [R U] _ H. specialize (H R). rewrite U in H.
  destruct (sliders_accepted slider b (rev a ++ p_used p)); [|exact H].
  destruct H as [R2 U2]. split; [exact R2|].
  now rewrite U2, rev_app_distr, <- app_assoc.
- intros R H _. now apply H.
Qed.

Lemma loop_outcome_nil : forall p, p_raised p = None -> loop_outcome slider [] p p.
Proof. intros p R. unfold loop_outcome. cbn. now split. Qed.

Lemma assign_members_outcome : forall skill names p,
  p_raised p = None ->
  loop_outcome slider
    (map (fun member_name => slider_key team_name member_name skill) names)
    p (fold_left (assign_member slider team_name skill) names p).
Proof.
intros skill. induction names as [|n names IH]; intros p R.
- now apply loop_outcome_nil.
- cbn [map fold_left].
  change (slider_key team_name n skill
          :: map (fun member_name => slider_key team_name member_name skill)
               names)
    with ([slider_key team_name n skill]
          ++ map (fun member_name => slider_key team_name member_name skill)
               names)%list.
  apply loop_outcome_app with (p1 := assign_member slider team_name skill p n).
  + unfold loop_outcome, assign_member. rewrite R. cbn [sliders_accepted].
    destruct (st_slider slider 0 10 (slider_key team_name n skill) (p_used p));
      cbn [p_raised p_used]; [discriminate | now split].
  + intros H E. apply H. now apply (assign_members_clean _ _ _ _ _ E).
  + apply IH.
Qed.

Lemma assign_skill_keys : forall skill p,
  Dict.keys (p_members (assign_skill slider team_name p skill))
  = Dict.keys (p_members p).
Proof.
intros skill p.
apply (@assign_skill_keeps slider team_name
         (fun ms => Dict.keys ms = Dict.keys (p_members p)) (fun _ => True)).
- intros m s v ms _ _ _ H. now rewrite keys_store_level.
- exact I.
- reflexivity.
Qed.

Lemma assign_skills_outcome : forall names l p,
  Dict.keys (p_members p) = names ->
  p_raised p = None ->
  loop_outcome slider
    (flat_map
       (fun skill =>
          map (fun member_name => slider_key team_name member_name skill)
            names)
       l)
    p (fold_left (assign_skill slider team_name) l p).
Proof.
intros names. induction l as [|s l IH]; intros p K R.
- now apply loop_outcome_nil.
- cbn [flat_map fold_left].
  apply loop_outcome_app with (p1 := assign_skill slider team_name p s).
  + unfold assign_skill. rewrite K. now apply assign_members_outcome.
  + intros H E. apply H. now apply (assign_skills_clean _ _ _ _ E).
  + apply IH. now rewrite assign_skill_keys.
Qed.

Lemma assign_skills_keys : forall l p,
  Dict.keys (p_members (fold_left (assign_skill slider team_name) l p))
  = Dict.keys (p_members p).
Proof.
induction l as [|s l IH]; intros p; [reflexivity|].
cbn [fold_left]. now rewrite IH, assign_skill_keys.
Qed.

Lemma assign_all_outcome : forall names sk p,
  Dict.keys (p_members p) = names ->
  p_raised p = None ->
  loop_outcome slider (slider_keys team_name sk names) p
    (assign_all slider team_name sk p).
Proof.
intros names. unfold assign_all, slider_keys.
induction sk as [|cat sk IH]; intros p K R.
- now apply loop_outcome_nil.
- cbn [flat_map fold_left].
  apply loop_outcome_app
    with (p1 := fold_left (assign_skill slider team_name) (snd cat) p).
  + now apply assign_skills_outcome.
  + intros H E. apply H.
    now apply (assign_all_clean slider team_name sk _ E).
  + apply IH. now rewrite assign_skills_keys.
Qed.

End SliderOutcome.

(** X19: on a team that has skills, [assign_competency] returns exactly
    when the keys of its sliders (one per skill of a category and member, in
    the order of the loops) are pairwise distinct, none of them is the key of
    a widget made before in the run, and every slider holds a value between 0
    and 10; otherwise it stops on the exception of a slider. *)
Theorem assign_returns_iff_keys_distinct : forall slider used t teams T,
  Dict.get t teams = Some T ->
  existsb nonempty (Dict.values (skills T)) = true ->
  ((exists teams', assign_competency slider used t teams = Ok (teams', []))
   <-> NoDup (slider_keys t (skills T) (Dict.keys (members T)))
       /\ forall k, In k (slider_keys t (skills T) (Dict.keys (members T))) ->
                    ~ In k used /\ 0 <= slider k <= 10)
  /\ ((exists e teams', assign_competency slider used t teams = Raised e teams')
      <-> ~ (NoDup (slider_keys t (skills T) (Dict.keys (members T)))
             /\ forall k,
                  In k (slider_keys t (skills T) (Dict.keys (members T))) ->
                  ~ In k used /\ 0 <= slider k <= 10)).
Proof.
intros slider used t teams T HT Hany.
rewrite <- sliders_accepted_spec.
pose proof (@assign_all_outcome slider t (Dict.keys (members T)) (skills T)
              (mkProgress (members T) used None) eq_refl eq_refl) as O.
unfold loop_outcome in O. cbn [p_used] in O.
destruct (assign_competency_outcome slider used t teams HT Hany)
  as [[R E]|[e [R E]]]; rewrite E.
- destruct (sliders_accepted slider
              (slider_keys t (skills T) (Dict.keys (members T))) used);
    [|contradiction]. split.
  + split; [reflexivity | eauto].
  + split; [intros (e & s0 & X); discriminate X | congruence].
- destruct (sliders_accepted slider
              (slider_keys t (skills T) (Dict.keys (members T))) used).
  + destruct O as [O _]. congruence.
  + split.
    * split; [intros [s0 X]; discriminate X | discriminate].
    * split; [discriminate | eauto].
Qed.

Lemma assign_returns_iff_keys_distinct_witness :
  (exists teams',
     assign_competency demo_slider ["add_members_Alpha"] "Alpha" demo_teams
     = Ok (teams', []))
  /\ exists e teams',
       assign_competency demo_slider [] "Alpha" python_twice
       = Raised e teams'.
Proof.
split.
- apply (proj1 (@assign_returns_iff_keys_distinct demo_slider
                  ["add_members_Alpha"] "Alpha" demo_teams _
                  eq_refl eq_refl)).
  apply sliders_accepted_spec. vm_compute. reflexivity.
- apply (proj2 (@assign_returns_iff_keys_distinct demo_slider
                  [] "Alpha" python_twice _ eq_refl eq_refl)).
  intros H. apply sliders_accepted_spec in H. vm_compute in H. discriminate H.
Defined.
